(** * Blue Orca AI backend ([server.js]): model and verified properties

    The Express handlers of [server.js] are embedded as programs of a small
    state-and-exception monad.  The state carries the four SQL tables the
    handlers touch, the mail outbox, the log of upstream completion calls
    and the HTTP response under construction.  An [await] that rejects is a
    [Throw]: the rest of the handler does not run, and what was already
    written to the tables stays (the handlers use no transaction).

    A handler is also given cut at its awaits ([Async]), so that several
    requests in flight can be served under any schedule of their segments
    ([interleave]); served alone, the segments run back to back and give the
    handler again. *)

From Stdlib Require Import ZArith List String Ascii Bool Lia.
From Stdlib Require Import Floats.SpecFloat.
Import ListNotations.

Local Open Scope string_scope.
Local Open Scope list_scope.
Local Open Scope Z_scope.

(** ** Tables *)

Module Db.

(** [users]: [verified] is the integer column the login handler tests
    with [!user.verified]. *)
Record UserRow := mkUser
  { user_id : Z; user_email : string; user_password : string; user_verified : Z }.

Record OtpRow := mkOtp
  { otp_email : string; otp_code : string; otp_expires_at : Z }.

Record ChatRow := mkChat
  { chat_id : Z; chat_user_id : Z; chat_title : string }.

(** [messages]: [chat_id] receives the path parameter [:chatId], which the
    queries compare with it; rows are kept in insertion order. *)
Record MessageRow := mkMessage
  { msg_chat_id : Z; msg_role : string; msg_content : string }.

Record DB := mkDB
  { users : list UserRow;
    otps : list OtpRow;
    chats : list ChatRow;
    messages : list MessageRow }.

Definition empty : DB := mkDB [] [] [] [].

Definition set_users (f : list UserRow -> list UserRow) (d : DB) : DB :=
  mkDB (f (users d)) (otps d) (chats d) (messages d).
Definition set_otps (f : list OtpRow -> list OtpRow) (d : DB) : DB :=
  mkDB (users d) (f (otps d)) (chats d) (messages d).
Definition set_chats (f : list ChatRow -> list ChatRow) (d : DB) : DB :=
  mkDB (users d) (otps d) (f (chats d)) (messages d).
Definition set_messages (f : list MessageRow -> list MessageRow) (d : DB) : DB :=
  mkDB (users d) (otps d) (chats d) (f (messages d)).

(** The row id a table hands out next: one more than the largest in use. *)
Definition next_id (ids : list Z) : Z := 1 + fold_right Z.max 0 ids.

(** [WHERE email=?] on [otps]. *)
Definition otp_for (email : string) (o : OtpRow) : bool :=
  String.eqb (otp_email o) email.

(** [WHERE email=? AND code=?] on [otps]. *)
Definition otp_matches (email code : string) (o : OtpRow) : bool :=
  String.eqb (otp_email o) email && String.eqb (otp_code o) code.

(** [WHERE email=?] on [users]. *)
Definition user_for (email : string) (u : UserRow) : bool :=
  String.eqb (user_email u) email.

(** [WHERE chat_id=?] on [messages]. *)
Definition message_of (chatId : Z) (m : MessageRow) : bool :=
  msg_chat_id m =? chatId.

Definition chat_exists (chatId : Z) (d : DB) : bool :=
  existsb (fun c => chat_id c =? chatId) (chats d).

(** [DELETE FROM otps WHERE email=?] *)
Definition delete_otps (email : string) (d : DB) : DB :=
  set_otps (filter (fun o => negb (otp_for email o))) d.

(** [INSERT INTO otps (email, code, expires_at) VALUES (?,?,?)] *)
Definition insert_otp (email code : string) (expires : Z) (d : DB) : DB :=
  set_otps (fun t => t ++ [mkOtp email code expires]) d.

(** [db.get("SELECT * FROM otps WHERE email=? AND code=?")]: the first
    matching row, or nothing. *)
Definition get_otp (email code : string) (d : DB) : option OtpRow :=
  find (otp_matches email code) (otps d).

(** [UPDATE users SET verified=1 WHERE email=?] *)
Definition verify_users (email : string) (d : DB) : DB :=
  set_users
    (map (fun u => if user_for email u
                   then mkUser (user_id u) (user_email u) (user_password u) 1
                   else u)) d.

(** [db.get("SELECT * FROM users WHERE email=?")] *)
Definition get_user (email : string) (d : DB) : option UserRow :=
  find (user_for email) (users d).

(** Modelled from the spec: the schema of [users] (db.js) is not part of
    the sources.  Section 6: "register(email, password) -> ok |
    DuplicateEmail"; the register handler answers a rejected insert with
    "Email already used".  So the email column is unique, and a fresh row is
    not verified.  This is the statement
    [INSERT INTO users (email, password) VALUES (?,?)]. *)
Definition insert_user (email hash : string) (d : DB) : option DB :=
  if existsb (user_for email) (users d) then None
  else Some (set_users
               (fun t => t ++ [mkUser (next_id (map user_id t)) email hash 0]) d).

(** [INSERT INTO chats (user_id, title) VALUES (?,?)], with [lastID]. *)
Definition insert_chat (owner : Z) (title : string) (d : DB) : Z * DB :=
  let id := next_id (map chat_id (chats d)) in
  (id, set_chats (fun t => t ++ [mkChat id owner title]) d).

(** Modelled from the spec: the schema of [messages] (db.js) is not part
    of the sources.  Section 4.1: [append(sessionId, role, content)]
    "fails with NotFound if sessionId does not reference an existing
    session"; otherwise the insert is durable and "visible to subsequent
    reads in insertion order".  This is the statement
    [INSERT INTO messages (chat_id, role, content) VALUES (?,?,?)]. *)
Definition insert_message (chatId : Z) (role content : string) (d : DB)
  : option DB :=
  if chat_exists chatId d
  then Some (set_messages (fun t => t ++ [mkMessage chatId role content]) d)
  else None.

(** [db.all("SELECT role, content FROM messages WHERE chat_id=?")]: the
    rows of the chat in storage order, projected on the two columns. *)
Definition select_messages (chatId : Z) (d : DB) : list (string * string) :=
  map (fun m => (msg_role m, msg_content m))
      (filter (message_of chatId) (messages d)).

End Db.

Import Db.

(** ** The handler monad *)

Inductive Err :=
| SessionNotFound
| UpstreamError (detail : string)
| MailError.

Inductive Result (S A : Type) :=
| Ok (a : A) (s : S)
| Throw (e : Err) (s : S).
Arguments Ok {S A} a s.
Arguments Throw {S A} e s.

Definition M (S A : Type) : Type := S -> Result S A.

Definition ret {S A} (a : A) : M S A := fun s => Ok a s.

Definition bind {S A B} (m : M S A) (k : A -> M S B) : M S B :=
  fun s => match m s with
           | Ok a s' => k a s'
           | Throw e s' => Throw e s'
           end.

Definition throw {S A} (e : Err) : M S A := fun s => Throw e s.
Definition gets {S A} (f : S -> A) : M S A := fun s => Ok (f s) s.
Definition modify {S} (f : S -> S) : M S unit := fun s => Ok tt (f s).

Declare Scope handler_scope.
Delimit Scope handler_scope with handler.
Notation "x <- m ;; k" := (bind m (fun x => k))
  (at level 61, m at next level, right associativity) : handler_scope.
Notation "m ;; k" := (bind m (fun _ => k))
  (at level 61, right associativity) : handler_scope.
Local Open Scope handler_scope.

Definition final_state {S A} (r : Result S A) : S :=
  match r with Ok _ s => s | Throw _ s => s end.

Definition thrown {S A} (r : Result S A) : option Err :=
  match r with Ok _ _ => None | Throw e _ => Some e end.

(** ** The world and the response *)

Definition History := list (string * string).

Record Mail := mkMail { mail_to : string; mail_subject : string; mail_text : string }.

Inductive Body :=
| NoBody
| JsonOk
| JsonError (error : string)
| JsonToken (token : string)
| JsonChatId (id : Z)
| JsonRows (rows : History)
| JsonChats (rows : list ChatRow).

(** What the client has received: status, headers, the JSON body if one
    was sent, the chunks written so far, and whether the stream is closed. *)
Record Response := mkResponse
  { status : Z;
    headers : list (string * string);
    body : Body;
    chunks : list string;
    ended : bool }.

Definition fresh_response : Response := mkResponse 200 [] NoBody [] false.

Record World := mkWorld
  { db : DB;
    outbox : list Mail;
    upstream_log : list History }.

Record Ctx := mkCtx { world : World; res : Response }.

Definition on_db (f : DB -> DB) (c : Ctx) : Ctx :=
  mkCtx (mkWorld (f (db (world c))) (outbox (world c)) (upstream_log (world c)))
        (res c).

Definition on_res (f : Response -> Response) (c : Ctx) : Ctx :=
  mkCtx (world c) (f (res c)).

(** [res.setHeader(name, value)] *)
Definition setHeader (name value : string) : M Ctx unit :=
  modify (on_res (fun r =>
    mkResponse (status r)
               (filter (fun h => negb (String.eqb (fst h) name)) (headers r)
                  ++ [(name, value)])
               (body r) (chunks r) (ended r))).

(** [res.status(code).json(b)] *)
Definition send_json (code : Z) (b : Body) : M Ctx unit :=
  modify (on_res (fun r => mkResponse code (headers r) b (chunks r) true)).

(** [res.json(b)] *)
Definition json (b : Body) : M Ctx unit :=
  modify (on_res (fun r => mkResponse (status r) (headers r) b (chunks r) true)).

(** The response's own [write]: the chunk goes out on the wire. *)
Definition res_write (chunk : string) : M Ctx unit :=
  modify (on_res (fun r =>
    mkResponse (status r) (headers r) (body r) (chunks r ++ [chunk]) (ended r))).

(** [res.end()] *)
Definition res_end : M Ctx unit :=
  modify (on_res (fun r =>
    mkResponse (status r) (headers r) (body r) (chunks r) true)).

(** A handler starts on a fresh response. *)
Definition serve {A} (h : M Ctx A) (w : World) : Result Ctx A :=
  h (mkCtx w fresh_response).

(** [await db.run(...)] for a statement that cannot be rejected. *)
Definition db_run (f : DB -> DB) : M Ctx unit := modify (on_db f).

(** [await db.get(...)] / [await db.all(...)] *)
Definition db_query {A} (q : DB -> A) : M Ctx A := gets (fun c => q (db (world c))).

(** ** JavaScript numbers

    A Number is an IEEE 754 binary64 value; the arithmetic is the one of
    [SpecFloat] at precision 53. *)

Module Num.

Definition prec : Z := 53.
Definition emax : Z := 1024.

(** A numeric literal with an integer value. *)
Definition of_Z (n : Z) : spec_float := binary_normalize prec emax n 0 false.

Definition add : spec_float -> spec_float -> spec_float := SFadd prec emax.
Definition mul : spec_float -> spec_float -> spec_float := SFmul prec emax.

(** What [Math.random()] may return: a Number [x] with [0 <= x < 1]. *)
Definition is_random (x : spec_float) : bool :=
  valid_binary prec emax x && SFleb (of_Z 0) x && SFltb x (of_Z 1).

(** An integer-valued Number, as [Math.floor] returns it. *)
Inductive Integral :=
| IntVal (n : Z)
| IntInf (negative : bool)
| IntNaN.

(** [Math.floor(x)]: for a finite [x = (-1)^s * m * 2^e] the largest
    integer not above it. *)
Definition Math_floor (x : spec_float) : Integral :=
  match x with
  | S754_zero _ => IntVal 0
  | S754_finite s m e => IntVal (Z.shiftl (cond_Zopp s (Zpos m)) e)
  | S754_infinity s => IntInf s
  | S754_nan => IntNaN
  end.

Definition digit (d : Z) : ascii := ascii_of_nat (48 + Z.to_nat d).

Fixpoint decimal_aux (fuel : nat) (n : Z) (acc : string) : string :=
  match fuel with
  | O => acc
  | S fuel' =>
      let acc' := String (digit (n mod 10)) acc in
      if n / 10 =? 0 then acc' else decimal_aux fuel' (n / 10) acc'
  end.

(** The decimal digits of a natural number, most significant first. *)
Definition decimal (n : Z) : string :=
  decimal_aux (S (Z.to_nat (Z.log2 n))) n "".

(** [n.toString()] for an integer-valued Number; integers print in plain
    decimal (every value below 10^21 does). *)
Definition toString (v : Integral) : string :=
  match v with
  | IntVal n => if n <? 0 then String "-" (decimal (- n)) else decimal n
  | IntInf false => "Infinity"
  | IntInf true => "-Infinity"
  | IntNaN => "NaN"
  end.

End Num.

(** ** Collaborators *)

(** [bcrypt] and [jsonwebtoken], as far as the handlers use them. *)
Class Crypto := mkCrypto
  { bcrypt_hash : string -> string;
    bcrypt_compare : string -> string -> bool;
    jwt_sign : Z -> string -> string }.

(** [mailer.sendMail(...)]: the transport delivers or rejects. *)
Definition sendMail (delivered : bool) (m : Mail) : M Ctx unit :=
  if delivered
  then modify (fun c =>
         mkCtx (mkWorld (db (world c)) (outbox (world c) ++ [m])
                        (upstream_log (world c))) (res c))
  else throw MailError.

(** The identity the [auth] middleware resolved from the bearer token. *)
Record Caller := mkCaller { caller_id : Z; caller_email : string }.

(** Modelled from the spec: the middleware [auth] (auth.js) is not part of
    the sources.  Section 6: "The relay's endpoints require a valid caller
    identity resolved from such a token before touching any session", and
    an unauthenticated request is answered 401.  [user] is [req.user] as
    the middleware resolved it, or nothing when the token is missing or
    invalid. *)
Definition auth (user : option Caller) (next : Caller -> M Ctx unit) : M Ctx unit :=
  match user with
  | Some u => next u
  | None => send_json 401 (JsonError "Unauthorized")
  end.

(** What the upstream provider does on one request: the fragments it
    yields, then normal completion or a failure. *)
Record Upstream := mkUpstream { fragments : list string; failure : option string }.

Definition Provider := History -> Upstream.

(** ** The relay's local frame: the response plus the cell [full] *)

Record Frame := mkFrame { ctx : Ctx; full : string }.

Definition lift {A} (m : M Ctx A) : M Frame A :=
  fun f => match m (ctx f) with
           | Ok a c => Ok a (mkFrame c (full f))
           | Throw e c => Throw e (mkFrame c (full f))
           end.

(** [let full = ""; ...]: the cell lives as long as the handler body. *)
Definition with_full {A} (m : M Frame A) : M Ctx A :=
  fun c => match m (mkFrame c "") with
           | Ok a f => Ok a (ctx f)
           | Throw e f => Throw e (ctx f)
           end.

Fixpoint write_all {S} (write : string -> M S unit) (fs : list string) : M S unit :=
  match fs with
  | [] => ret tt
  | f :: fs' => write f ;; write_all write fs'
  end.

Definition log_upstream (history : History) : M Ctx unit :=
  modify (fun c =>
    mkCtx (mkWorld (db (world c)) (outbox (world c))
                   (upstream_log (world c) ++ [history])) (res c)).

(** Modelled from the spec: [streamChat] (openai.js) is not part of the
    sources.  Section 4.3: [stream(history)] yields a finite sequence of
    text fragments and "fails with UpstreamError" when the provider fails;
    "no retry is attempted internally".  Section 2: "each fragment is
    forwarded to the client connection", which [streamChat(res, history)]
    does through the [write] method of the response it is handed. *)
Definition streamChat (provider : Provider) (write : string -> M Frame unit)
    (history : History) : M Frame unit :=
  lift (log_upstream history) ;;
  let up := provider history in
  write_all write (fragments up) ;;
  match failure up with
  | None => ret tt
  | Some detail => throw (UpstreamError detail)
  end.

(** [await db.run("INSERT INTO messages ...")] *)
Definition db_insert_message (chatId : Z) (role content : string) : M Ctx unit :=
  fun c => match insert_message chatId role content (db (world c)) with
           | Some d => Ok tt (on_db (fun _ => d) c)
           | None => Throw SessionNotFound c
           end.

(** ** The handlers *)

(** [POST /api/register] *)
Definition post_register `{Crypto} (email password : string) : M Ctx unit :=
  let hash := bcrypt_hash password in
  r <- db_query (insert_user email hash) ;;
  match r with
  | Some d => db_run (fun _ => d) ;; json JsonOk
  | None => send_json 400 (JsonError "Email already used")
  end.

(** The mail of the send-otp handler; the sender address comes from the
    environment and is left out. *)
Definition otp_mail (email code : string) : Mail :=
  mkMail email "Kode Verifikasi Blue Orca"
         (String.append "Kode OTP kamu: "
            (String.append code (String (ascii_of_nat 10) "Berlaku 5 menit."))).

(** [Math.floor(100000 + Math.random() * 900000).toString()] *)
Definition otp_code_of (random : spec_float) : string :=
  Num.toString
    (Num.Math_floor (Num.add (Num.of_Z 100000) (Num.mul random (Num.of_Z 900000)))).

(** [POST /api/send-otp]; [random] is what [Math.random()] returned and
    [now] what [Date.now()] returned. *)
Definition post_send_otp (email : string) (random : spec_float) (now : Z)
    (delivered : bool) : M Ctx unit :=
  let code := otp_code_of random in
  let expires := now + 5 * 60 * 1000 in
  db_run (delete_otps email) ;;
  db_run (insert_otp email code expires) ;;
  sendMail delivered (otp_mail email code) ;;
  json JsonOk.

(** [POST /api/verify-otp] *)
Definition post_verify_otp (email code : string) (now : Z) : M Ctx unit :=
  otp <- db_query (get_otp email code) ;;
  match otp with
  | None => send_json 400 (JsonError "OTP invalid / expired")
  | Some o =>
      if otp_expires_at o <? now
      then send_json 400 (JsonError "OTP invalid / expired")
      else
        db_run (verify_users email) ;;
        db_run (delete_otps email) ;;
        json JsonOk
  end.

(** [POST /api/login] *)
Definition post_login `{Crypto} (email password : string) : M Ctx unit :=
  user <- db_query (get_user email) ;;
  match user with
  | None => send_json 400 (JsonError "User not found")
  | Some u =>
      if user_verified u =? 0
      then send_json 403 (JsonError "Email not verified")
      else
        if negb (bcrypt_compare password (user_password u))
        then send_json 400 (JsonError "Wrong password")
        else json (JsonToken (jwt_sign (user_id u) (user_email u)))
  end.

(** [POST /api/chat] *)
Definition post_chat (user : option Caller) : M Ctx unit :=
  auth user (fun u =>
    r <- db_query (insert_chat (caller_id u) "New Chat") ;;
    db_run (fun _ => snd r) ;;
    json (JsonChatId (fst r))).

(** The replacement the relay installs for [res.write]: it accumulates the
    chunk in [full] and hands it to the original [write]. *)
Definition tee_write (originalWrite : string -> M Ctx unit) (chunk : string)
  : M Frame unit :=
  modify (fun f => mkFrame (ctx f) (String.append (full f) chunk)) ;;
  lift (originalWrite chunk).

(** [POST /api/chat-stream/:chatId] *)
Definition post_chat_stream (provider : Provider) (user : option Caller)
    (chatId : Z) (message : string) : M Ctx unit :=
  auth user (fun _ =>
    setHeader "Content-Type" "text/plain; charset=utf-8" ;;
    setHeader "Transfer-Encoding" "chunked" ;;
    db_insert_message chatId "user" message ;;
    history <- db_query (select_messages chatId) ;;
    with_full (
      let originalWrite := res_write in
      streamChat provider (tee_write originalWrite) history ;;
      content <- gets full ;;
      lift (db_insert_message chatId "assistant" content) ;;
      lift res_end)).

(** [GET /api/messages/:chatId] *)
Definition get_messages (user : option Caller) (chatId : Z) : M Ctx unit :=
  auth user (fun _ =>
    msgs <- db_query (select_messages chatId) ;;
    json (JsonRows msgs)).

(** Modelled from the spec: the column [created_at] is filled by the schema
    (db.js), which is not part of the sources.  Section 3 gives a session
    its "creation timestamp" when it is created, so the rows are stored in
    creation order and ordering by it, newest first, is storage order
    reversed.  This is the query
    [SELECT * FROM chats WHERE user_id=? ORDER BY created_at DESC]. *)
Definition select_chats (owner : Z) (d : DB) : list ChatRow :=
  rev (filter (fun c => chat_user_id c =? owner) (chats d)).

(** [GET /api/chats] *)
Definition get_chats (user : option Caller) : M Ctx unit :=
  auth user (fun u =>
    rows <- db_query (select_chats (caller_id u)) ;;
    json (JsonChats rows)).

(** ** The server as a transition system

    One request is one step: its handler runs to completion on the world
    the previous request left, with no other handler running between its
    awaits ([interleave], further down, drops that restriction).
    [GET /ping] and [GET /api/chats] write nothing and are not requests of
    this system. *)

Inductive Request :=
| Register (email password : string)
| SendOtp (email : string) (random : spec_float) (now : Z) (delivered : bool)
| VerifyOtp (email code : string) (now : Z)
| Login (email password : string)
| CreateChat (user : option Caller)
| ChatStream (provider : Provider) (user : option Caller) (chatId : Z)
             (message : string)
| Messages (user : option Caller) (chatId : Z)
| Chats (user : option Caller).

Definition handle `{Crypto} (r : Request) : M Ctx unit :=
  match r with
  | Register email password => post_register email password
  | SendOtp email random now delivered => post_send_otp email random now delivered
  | VerifyOtp email code now => post_verify_otp email code now
  | Login email password => post_login email password
  | CreateChat user => post_chat user
  | ChatStream provider user chatId message =>
      post_chat_stream provider user chatId message
  | Messages user chatId => get_messages user chatId
  | Chats user => get_chats user
  end.

Definition initial : World := mkWorld Db.empty [] [].

(** The world a request leaves behind, whether its handler returned or threw. *)
Definition step `{Crypto} (r : Request) (w : World) : World :=
  world (final_state (serve (handle r) w)).

(** The worlds reached when the requests are served one at a time. *)
Inductive reachable `{Crypto} : World -> Prop :=
| reach_initial : reachable initial
| reach_step w r : reachable w -> reachable (step r w).

(** A toy instance, for running the handlers on concrete inputs. *)
Definition toy_crypto : Crypto :=
  mkCrypto (fun p => String.append "$2b$" p)
           (fun p h => String.eqb (String.append "$2b$" p) h)
           (fun id email => String.append "jwt:" email).


(** What a handler leaves behind on a world, and what it answers. *)
Definition after {A} (h : M Ctx A) (w : World) : World :=
  world (final_state (serve h w)).

Definition reply {A} (h : M Ctx A) (w : World) : Response :=
  res (final_state (serve h w)).

(** The concatenation of a sequence of chunks, in order, as one string. *)
Definition joined (fs : list string) : string := fold_right String.append "" fs.


Definition role_content (m : MessageRow) : string * string :=
  (msg_role m, msg_content m).

(** The test of the verify handler: a code is live at [now] when it has
    not expired. *)
Definition live (now : Z) (o : OtpRow) : bool := negb (otp_expires_at o <? now).

Definition invalid_otp : Response :=
  mkResponse 400 [] (JsonError "OTP invalid / expired") [] true.

Definition not_verified : Response :=
  mkResponse 403 [] (JsonError "Email not verified") [] true.

Definition stream_headers : list (string * string) :=
  [("Content-Type", "text/plain; charset=utf-8"); ("Transfer-Encoding", "chunked")].

(** ** Concrete inputs *)

Definition alice : Caller := mkCaller 7 "a@example.com".
Definition bob : Caller := mkCaller 8 "b@example.com".

(** A store where alice owns session 1, which holds one message. *)
Definition demo_world : World :=
  mkWorld (mkDB [mkUser 7 "a@example.com" "$2b$secret" 1;
                 mkUser 8 "b@example.com" "$2b$hunter2" 1]
                []
                [mkChat 1 7 "New Chat"]
                [mkMessage 1 "user" "hi"])
          [] [].

Definition demo_provider : Provider :=
  fun _ => mkUpstream ["I'm "; "fine, thanks"] None.

(** An upstream that yields two fragments and then fails. *)
Definition failing_provider : Provider :=
  fun _ => mkUpstream ["I'm "; "fi"] (Some "connection reset").

(** The relay run on the failing upstream, and bob reading alice's session. *)
Definition failing_run : Result Ctx unit :=
  serve (post_chat_stream failing_provider (Some alice) 1 "how are you") demo_world.

Definition foreign_read : Result Ctx unit :=
  serve (get_messages (Some bob) 1) demo_world.

(** At most one code is stored per email. *)
Definition otp_unique (d : DB) : Prop :=
  forall email, (List.length (filter (otp_for email) (otps d)) <= 1)%nat.

(** The store after a code was issued twice for one address and once for
    another. *)
Definition otp_world : World :=
  @step toy_crypto
    (SendOtp "a@example.com" (S754_finite false (2 ^ 52) (-53)) 2000 true)
    (@step toy_crypto
       (SendOtp "b@example.com" (S754_zero false) 1500 true)
       (@step toy_crypto
          (SendOtp "a@example.com" (S754_zero false) 1000 true)
          (@step toy_crypto (Register "a@example.com" "secret") initial))).

(** A registered account, a code issued for it at time 1000, and the
    store after that code was accepted at time 301000. *)
Definition otp_account : World :=
  @step toy_crypto (Register "a@example.com" "secret") initial.

Definition otp_issued : World :=
  after (post_send_otp "a@example.com" (S754_finite false (2 ^ 52) (-53)) 1000 true)
        otp_account.

Definition otp_consumed : World :=
  after (post_verify_otp "a@example.com" "550000" 301000) otp_issued.

(** ** Rounding, for the proofs about [Math.random()]

    The invariant of the right shift that [binary_round_aux] performs: after
    [n] steps on a mantissa [M] the record holds the quotient of [M] by [2^n],
    and its two sticky bits place the remainder below, at or above the half
    of [2^n]. *)

Definition loc_agrees (rem P : Z) (r s : bool) : Prop :=
  match r, s with
  | false, false => rem = 0
  | false, true => 0 < 2 * rem < P
  | true, false => 2 * rem = P
  | true, true => P < 2 * rem
  end.

Definition shr_inv (M n : Z) (mrs : shr_record) : Prop :=
  shr_m mrs = M / 2 ^ n /\
  loc_agrees (M mod 2 ^ n) (2 ^ n) (shr_r mrs) (shr_s mrs).

(** The float [binary_round_aux] builds from a non-negative mantissa. *)
Definition float_of (m e : Z) : spec_float :=
  match m with
  | Z0 => S754_zero false
  | Zpos p => S754_finite false p e
  | Zneg _ => S754_nan
  end.

(** ** Sequences of requests, and what the accounts look like *)

(** The world after a sequence of requests, served one after the other. *)
Fixpoint run `{Crypto} (rs : list Request) (w : World) : World :=
  match rs with
  | [] => w
  | r :: rs' => run rs' (step r w)
  end.

(** The emails of the accounts the login handler treats as verified. *)
Definition verified_emails (d : DB) : list string :=
  map user_email (filter (fun u => negb (user_verified u =? 0)) (users d)).

(** Two rows of [users] that are the same account: same id, email and
    password hash. *)
Definition same_account (u u' : UserRow) : Prop :=
  user_id u' = user_id u /\
  user_email u' = user_email u /\
  user_password u' = user_password u.

Definition already_used : Response :=
  mkResponse 400 [] (JsonError "Email already used") [] true.

Definition wrong_password : Response :=
  mkResponse 400 [] (JsonError "Wrong password") [] true.

Definition ok_response : Response := mkResponse 200 [] JsonOk [] true.

(** A new address going through registration, issuance and verification on
    top of [demo_world]. *)
Definition carol_registered : World :=
  after (@post_register toy_crypto "c@example.com" "pw") demo_world.

Definition carol_issued : World :=
  after (post_send_otp "c@example.com" (S754_zero false) 1000 true)
        carol_registered.

Definition carol_verified : World :=
  after (post_verify_otp "c@example.com" "100000" 2000) carol_issued.

(** The history of [demo_world]'s session once "how are you" was added,
    two upstream behaviours on it, and a frame in the middle of a stream. *)
Definition demo_history : History := [("user", "hi"); ("user", "how are you")].

Definition midstream_frame : Frame :=
  mkFrame (mkCtx demo_world (mkResponse 200 stream_headers NoBody ["I'm "] false))
          "I'm ".

(** A store with a second session, owned by bob. *)
Definition two_sessions : World :=
  mkWorld (mkDB [] [] [mkChat 1 7 "New Chat"; mkChat 2 8 "New Chat"]
                [mkMessage 1 "user" "hi"; mkMessage 2 "user" "hello"])
          [] [].

(** ** Handlers between their awaits

    Node runs a handler without interruption up to its next [await]; while
    the awaited operation is pending, any other handler may run.  An async
    handler is therefore a chain of segments, each one an awaited operation
    with the synchronous code around it, and the event loop interleaves the
    segments of the requests in flight.  The handlers below are the ones
    above, cut at the [await]s of [server.js]. *)

Inductive Async : Type :=
| Finished
| Await (A : Type) (segment : M Ctx A) (k : A -> Async).
Arguments Await {A} segment k.

(** The handler served alone: its segments one after the other. *)
Fixpoint run_alone (a : Async) : M Ctx unit :=
  match a with
  | Finished => ret tt
  | Await segment k => x <- segment ;; run_alone (k x)
  end.

Definition auth_async (user : option Caller) (next : Caller -> Async) : Async :=
  match user with
  | Some u => next u
  | None => Await (send_json 401 (JsonError "Unauthorized")) (fun _ => Finished)
  end.

(** [POST /api/register]: [await bcrypt.hash], then [await db.run]. *)
Definition post_register_async `{Crypto} (email password : string) : Async :=
  Await (ret (bcrypt_hash password)) (fun hash =>
  Await (r <- db_query (insert_user email hash) ;;
         match r with
         | Some d => db_run (fun _ => d) ;; json JsonOk
         | None => send_json 400 (JsonError "Email already used")
         end) (fun _ =>
  Finished)).

(** [POST /api/send-otp]: the DELETE, the INSERT and the mail are three
    awaits. *)
Definition post_send_otp_async (email : string) (random : spec_float) (now : Z)
    (delivered : bool) : Async :=
  let code := otp_code_of random in
  let expires := now + 5 * 60 * 1000 in
  Await (db_run (delete_otps email)) (fun _ =>
  Await (db_run (insert_otp email code expires)) (fun _ =>
  Await (sendMail delivered (otp_mail email code) ;; json JsonOk) (fun _ =>
  Finished))).

(** [POST /api/verify-otp]: the SELECT, the UPDATE and the DELETE are three
    awaits; [now] is read after the SELECT. *)
Definition post_verify_otp_async (email code : string) (now : Z) : Async :=
  Await (db_query (get_otp email code)) (fun otp =>
  match otp with
  | None =>
      Await (send_json 400 (JsonError "OTP invalid / expired")) (fun _ => Finished)
  | Some o =>
      if otp_expires_at o <? now
      then Await (send_json 400 (JsonError "OTP invalid / expired"))
                 (fun _ => Finished)
      else
        Await (db_run (verify_users email)) (fun _ =>
        Await (db_run (delete_otps email) ;; json JsonOk) (fun _ =>
        Finished))
  end).

(** [POST /api/login]: [await db.get], then [await bcrypt.compare]. *)
Definition post_login_async `{Crypto} (email password : string) : Async :=
  Await (db_query (get_user email)) (fun user =>
  match user with
  | None => Await (send_json 400 (JsonError "User not found")) (fun _ => Finished)
  | Some u =>
      if user_verified u =? 0
      then Await (send_json 403 (JsonError "Email not verified")) (fun _ => Finished)
      else
        Await (ret (bcrypt_compare password (user_password u))) (fun valid =>
        Await (if negb valid
               then send_json 400 (JsonError "Wrong password")
               else json (JsonToken (jwt_sign (user_id u) (user_email u))))
              (fun _ => Finished))
  end).

(** [POST /api/chat]: one await. *)
Definition post_chat_async (user : option Caller) : Async :=
  auth_async user (fun u =>
    Await (r <- db_query (insert_chat (caller_id u) "New Chat") ;;
           db_run (fun _ => snd r) ;;
           json (JsonChatId (fst r))) (fun _ =>
    Finished)).

(** [POST /api/chat-stream/:chatId]: the INSERT of the user message, the
    SELECT of the history, [streamChat] and the INSERT of the reply are four
    awaits. *)
Definition post_chat_stream_async (provider : Provider) (user : option Caller)
    (chatId : Z) (message : string) : Async :=
  auth_async user (fun _ =>
    Await (setHeader "Content-Type" "text/plain; charset=utf-8" ;;
           setHeader "Transfer-Encoding" "chunked" ;;
           db_insert_message chatId "user" message) (fun _ =>
    Await (db_query (select_messages chatId)) (fun history =>
    Await (with_full (streamChat provider (tee_write res_write) history ;;
                      gets full)) (fun content =>
    Await (db_insert_message chatId "assistant" content ;; res_end) (fun _ =>
    Finished))))).

(** [GET /api/messages/:chatId]: one await. *)
Definition get_messages_async (user : option Caller) (chatId : Z) : Async :=
  auth_async user (fun _ =>
    Await (msgs <- db_query (select_messages chatId) ;; json (JsonRows msgs))
          (fun _ => Finished)).

(** [GET /api/chats]: one await. *)
Definition get_chats_async (user : option Caller) : Async :=
  auth_async user (fun u =>
    Await (rows <- db_query (select_chats (caller_id u)) ;; json (JsonChats rows))
          (fun _ => Finished)).

Definition handle_async `{Crypto} (r : Request) : Async :=
  match r with
  | Register email password => post_register_async email password
  | SendOtp email random now delivered =>
      post_send_otp_async email random now delivered
  | VerifyOtp email code now => post_verify_otp_async email code now
  | Login email password => post_login_async email password
  | CreateChat user => post_chat_async user
  | ChatStream provider user chatId message =>
      post_chat_stream_async provider user chatId message
  | Messages user chatId => get_messages_async user chatId
  | Chats user => get_chats_async user
  end.

(** What is left of a chat turn once its history is loaded, and once its
    user message is inserted. *)
Definition relay_loaded (provider : Provider) (chatId : Z) (history : History)
  : Async :=
  Await (with_full (streamChat provider (tee_write res_write) history ;;
                    gets full)) (fun content =>
  Await (db_insert_message chatId "assistant" content ;; res_end) (fun _ =>
  Finished)).

Definition relay_inserted (provider : Provider) (chatId : Z) : Async :=
  Await (db_query (select_messages chatId)) (relay_loaded provider chatId).

(** A request in flight: what is left of its handler, its own response, and
    the error that ended it, if one did. *)
Record Task := mkTask
  { pending : Async; response : Response; rejected : option Err }.

Definition spawn (a : Async) : Task := mkTask a fresh_response None.

(** One turn of the event loop for a task: its next segment runs on the
    shared world and the task's own response. *)
Definition advance (t : Task) (w : World) : Task * World :=
  match pending t with
  | Finished => (t, w)
  | Await segment k =>
      match segment (mkCtx w (response t)) with
      | Ok a c => (mkTask (k a) (res c) None, world c)
      | Throw e c => (mkTask Finished (res c) (Some e), world c)
      end
  end.

Fixpoint set_nth {A} (i : nat) (a : A) (l : list A) : list A :=
  match l, i with
  | [], _ => []
  | _ :: l', O => a :: l'
  | x :: l', S i' => x :: set_nth i' a l'
  end.

(** The requests in flight served in the order of a schedule: each entry
    names the task whose next segment runs. *)
Fixpoint interleave (schedule : list nat) (pool : list Task) (w : World)
  : list Task * World :=
  match schedule with
  | [] => (pool, w)
  | i :: rest =>
      match nth_error pool i with
      | Some t =>
          interleave rest (set_nth i (fst (advance t w)) pool) (snd (advance t w))
      | None => interleave rest pool w
      end
  end.

Definition in_flight `{Crypto} (rs : list Request) : list Task :=
  map (fun r => spawn (handle_async r)) rs.

(** A handler all of whose segments leave the stored messages in place and
    only add to them. *)
Fixpoint AppendOnly (a : Async) : Prop :=
  match a with
  | Finished => True
  | Await segment k =>
      (forall c, exists l,
          messages (db (world (final_state (segment c)))) =
          messages (db (world c)) ++ l) /\
      (forall x, AppendOnly (k x))
  end.

(** Two turns racing on session 1 of [demo_world]: the first inserts its
    message, the second inserts its own, then the first loads the history
    and calls the upstream. *)
Definition racing_turns : list Task * World :=
  interleave [0; 1; 0; 0]%nat
    [spawn (post_chat_stream_async demo_provider (Some alice) 1 "from A");
     spawn (post_chat_stream_async demo_provider (Some alice) 1 "from B")]
    demo_world.


(** Three requests in flight on [demo_world]: two turns on session 1 and an
    issuance. *)
Definition demo_requests : list Request :=
  [ChatStream demo_provider (Some alice) 1 "from A";
   ChatStream demo_provider (Some bob) 1 "from B";
   SendOtp "a@example.com" (S754_zero false) 1000 true].


(** What is left of a chat turn once the upstream has completed. *)
Definition relay_streamed (chatId : Z) (content : string) : Async :=
  Await (db_insert_message chatId "assistant" content ;; res_end) (fun _ =>
  Finished).

(** A handler, or what is left of one, that deletes no session. *)
Fixpoint KeepsSessions (a : Async) : Prop :=
  match a with
  | Finished => True
  | Await segment k =>
      (forall c chatId,
         chat_exists chatId (db (world c)) = true ->
         chat_exists chatId (db (world (final_state (segment c)))) = true) /\
      (forall x, KeepsSessions (k x))
  end.

(** ** Issuances among other requests *)

(** The codes stored for one email. *)
Definition codes_for (email : string) (w : World) : list OtpRow :=
  filter (otp_for email) (otps (db w)).







(** Four requests in flight: an issuance for a@example.com, a verification
    for it, an issuance for another email and a registration. *)
Definition otp_requests : list Request :=
  [SendOtp "a@example.com" (S754_zero false) 3000 true;
   VerifyOtp "a@example.com" "550000" 3001;
   SendOtp "b@example.com" (S754_finite false (2 ^ 52) (-53)) 3002 true;
   Register "c@example.com" "secret"].

(** * Properties *)

(** ** Strings and lists *)

Lemma append_empty_r (s : string) : String.append s "" = s.
Proof. induction s as [|a s IH]; simpl; [reflexivity | now rewrite IH]. Qed.

Lemma append_assoc (s t u : string) :
  String.append (String.append s t) u = String.append s (String.append t u).
Proof. induction s as [|a s IH]; simpl; [reflexivity | now rewrite IH]. Qed.

Lemma joined_app (fs gs : list string) :
  joined (fs ++ gs) = String.append (joined fs) (joined gs).
Proof.
  induction fs as [|f fs IH]; simpl; [reflexivity|].
  now rewrite IH, append_assoc.
Qed.

(** ** The tee *)

(** Each chunk the upstream client writes goes to both sinks: after any
    sequence of writes the wire has the chunks in order and [full] has grown
    by their bytes. *)
Lemma write_all_tee (fs : list string) (f : Frame) :
  write_all (tee_write res_write) fs f =
  Ok tt (mkFrame
           (on_res (fun r => mkResponse (status r) (headers r) (body r)
                                        (chunks r ++ fs) (ended r)) (ctx f))
           (String.append (full f) (joined fs))).
Proof.
  revert f. induction fs as [|x fs IH]; intros [[w r] acc].
  - simpl. unfold ret, on_res. simpl. rewrite app_nil_r, append_empty_r.
    now destruct r.
  - cbn [write_all]. unfold bind at 1.
    unfold tee_write at 1, bind, modify, lift, res_write, on_res. simpl.
    rewrite IH. unfold on_res. simpl.
    now rewrite <- app_assoc, append_assoc.
Qed.

(** The tee keeps the accumulator equal to the bytes on the wire. *)
Lemma tee_keeps_invariant (fs : list string) (f f' : Frame) :
  full f = joined (chunks (res (ctx f))) ->
  write_all (tee_write res_write) fs f = Ok tt f' ->
  full f' = joined (chunks (res (ctx f'))).
Proof.
  intros Hinv Hrun. rewrite write_all_tee in Hrun.
  injection Hrun as <-. simpl. now rewrite joined_app, Hinv.
Qed.

Lemma insert_message_ok chatId role content d :
  chat_exists chatId d = true ->
  insert_message chatId role content d =
  Some (set_messages (fun t => t ++ [mkMessage chatId role content]) d).
Proof. intros H. unfold insert_message. now rewrite H. Qed.

Lemma select_messages_snoc chatId role content d :
  select_messages chatId
    (set_messages (fun t => t ++ [mkMessage chatId role content]) d) =
  select_messages chatId d ++ [(role, content)].
Proof.
  unfold select_messages, set_messages, message_of. simpl.
  rewrite filter_app, map_app. simpl. now rewrite Z.eqb_refl.
Qed.

(** The relay on an existing session, up to the end of [streamChat]. *)
Lemma relay_run provider u chatId message w :
  chat_exists chatId (db w) = true ->
  let history := select_messages chatId (db w) ++ [("user", message)] in
  let fs := fragments (provider history) in
  let stored := messages (db w) ++ [mkMessage chatId "user" message] in
  serve (post_chat_stream provider (Some u) chatId message) w =
  match failure (provider history) with
  | None =>
      Ok tt (mkCtx
               (mkWorld (mkDB (users (db w)) (otps (db w)) (chats (db w))
                              (stored ++ [mkMessage chatId "assistant" (joined fs)]))
                        (outbox w) (upstream_log w ++ [history]))
               (mkResponse 200 stream_headers NoBody fs true))
  | Some detail =>
      Throw (UpstreamError detail)
            (mkCtx
               (mkWorld (mkDB (users (db w)) (otps (db w)) (chats (db w)) stored)
                        (outbox w) (upstream_log w ++ [history]))
               (mkResponse 200 stream_headers NoBody fs false))
  end.
Proof.
  intros Hex history fs stored.
  unfold serve, post_chat_stream, auth, with_full, streamChat, setHeader,
    db_insert_message, db_query, log_upstream, lift, gets, modify, bind.
  simpl.
  rewrite (insert_message_ok _ _ _ _ Hex).
  simpl. rewrite write_all_tee. simpl.
  change (map _ (filter (message_of chatId)
            (messages (db w) ++ [mkMessage chatId "user" message])))
    with (select_messages chatId
            (set_messages (fun t => t ++ [mkMessage chatId "user" message]) (db w))).
  rewrite select_messages_snoc. fold history. fold fs.
  destruct (failure (provider history)) as [detail|].
  - reflexivity.
  - unfold ret, res_end, modify, insert_message, chat_exists in *.
    simpl. rewrite Hex. reflexivity.
Qed.

(** ** The relay *)

(** C1, as stated, fails: on an upstream that yields two fragments and
    then fails, both fragments are written to the response, but no assistant
    message is committed, so what was written, "I'm fi", is the content of
    no stored message. *)
Lemma relay_writes_what_it_never_commits :
  fragments (failing_provider [("user", "hi"); ("user", "how are you")]) =
    ["I'm "; "fi"] /\
  joined (chunks (res (final_state failing_run))) = "I'm fi" /\
  existsb (fun m => String.eqb (msg_content m) "I'm fi")
          (messages (db (world (final_state failing_run)))) = false /\
  existsb (fun m => String.eqb (msg_role m) "assistant")
          (messages (db (world (final_state failing_run)))) = false.
Proof. repeat split. Qed.

(** C1, amended.  For every finite sequence of fragments the upstream
    client yields before it completes normally, the chunks handed to the
    response's [write] are exactly those fragments in order, and the
    assistant message committed to the store has as content the
    concatenation of the chunks written: every fragment is both forwarded
    and accumulated, none is dropped. *)
Theorem relay_commits_what_it_forwards provider u chatId message w fs :
  chat_exists chatId (db w) = true ->
  provider (select_messages chatId (db w) ++ [("user", message)]) =
    mkUpstream fs None ->
  exists c,
    serve (post_chat_stream provider (Some u) chatId message) w = Ok tt c /\
    chunks (res c) = fs /\
    ended (res c) = true /\
    messages (db (world c)) =
      messages (db w) ++
      [mkMessage chatId "user" message;
       mkMessage chatId "assistant" (joined (chunks (res c)))].
Proof.
  intros Hex Hup.
  pose proof (relay_run provider u chatId message w Hex) as Hrun.
  cbv zeta in Hrun. rewrite Hup in Hrun. cbn [failure fragments] in Hrun.
  eexists. split; [exact Hrun|]. cbn [res world db chunks ended messages].
  repeat split. now rewrite <- app_assoc.
Qed.

Lemma relay_commits_witness :
  exists c,
    serve (post_chat_stream demo_provider (Some alice) 1 "how are you") demo_world
      = Ok tt c /\
    chunks (res c) = ["I'm "; "fine, thanks"] /\
    ended (res c) = true /\
    messages (db (world c)) =
      messages (db demo_world) ++
      [mkMessage 1 "user" "how are you";
       mkMessage 1 "assistant" (joined (chunks (res c)))].
Proof.
  apply (relay_commits_what_it_forwards demo_provider alice 1 "how are you"
           demo_world ["I'm "; "fine, thanks"]); reflexivity.
Defined.

(** The scenario of the specification, run on the model. *)
Example relay_scenario :
  let c := final_state
             (serve (post_chat_stream demo_provider (Some alice) 1 "how are you")
                    demo_world) in
  select_messages 1 (db (world c)) =
    [("user", "hi"); ("user", "how are you"); ("assistant", "I'm fine, thanks")]
  /\ joined (chunks (res c)) = "I'm fine, thanks".
Proof. split; reflexivity. Qed.

(** C2, as stated, fails: when the upstream fails after two fragments the
    handler's [await streamChat(...)] rejects, and the store holds no
    assistant message for the session although both fragments were sent. *)
Lemma relay_upstream_failure_commits_nothing :
  fragments (failing_provider [("user", "hi"); ("user", "how are you")]) =
    ["I'm "; "fi"] /\
  thrown failing_run = Some (UpstreamError "connection reset") /\
  chunks (res (final_state failing_run)) = ["I'm "; "fi"] /\
  ~ In (mkMessage 1 "assistant" "I'm fi")
       (messages (db (world (final_state failing_run)))) /\
  filter (fun m => String.eqb (msg_role m) "assistant")
         (messages (db (world (final_state failing_run)))) = [].
Proof.
  repeat split; try reflexivity.
  vm_compute. intros [H|[H|[]]]; discriminate H.
Qed.

(** C2, amended.  If the upstream fails with [UpstreamError] after yielding
    [f1..fk], those fragments have been forwarded to the response in order,
    but the handler stops at the rejected [await]: the error propagates,
    the store gains the user message only, the response is not closed, and
    the upstream client was called exactly once (no retry). *)
Theorem relay_upstream_failure provider u chatId message w fs detail :
  chat_exists chatId (db w) = true ->
  provider (select_messages chatId (db w) ++ [("user", message)]) =
    mkUpstream fs (Some detail) ->
  exists c,
    serve (post_chat_stream provider (Some u) chatId message) w =
      Throw (UpstreamError detail) c /\
    chunks (res c) = fs /\
    ended (res c) = false /\
    messages (db (world c)) = messages (db w) ++ [mkMessage chatId "user" message] /\
    upstream_log (world c) =
      upstream_log w ++ [select_messages chatId (db w) ++ [("user", message)]].
Proof.
  intros Hex Hup.
  pose proof (relay_run provider u chatId message w Hex) as Hrun.
  cbv zeta in Hrun. rewrite Hup in Hrun. cbn [failure fragments] in Hrun.
  eexists. split; [exact Hrun|]. cbn. repeat split.
Qed.

Lemma relay_upstream_failure_witness :
  exists c,
    serve (post_chat_stream failing_provider (Some alice) 1 "how are you")
          demo_world = Throw (UpstreamError "connection reset") c /\
    chunks (res c) = ["I'm "; "fi"] /\
    ended (res c) = false /\
    messages (db (world c)) =
      messages (db demo_world) ++ [mkMessage 1 "user" "how are you"] /\
    upstream_log (world c) =
      upstream_log demo_world ++
      [select_messages 1 (db demo_world) ++ [("user", "how are you")]].
Proof.
  apply (relay_upstream_failure failing_provider alice 1 "how are you"
           demo_world ["I'm "; "fi"] "connection reset"); reflexivity.
Defined.

(** A turn served alone on an existing session: the one history handed to
    the upstream client is the session's earlier messages followed by the
    turn just submitted, whether the upstream then completes or fails. *)
Theorem relay_history_ends_with_user_turn provider u chatId message w :
  chat_exists chatId (db w) = true ->
  exists history,
    upstream_log (after (post_chat_stream provider (Some u) chatId message) w) =
      upstream_log w ++ [history] /\
    history = select_messages chatId (db w) ++ [("user", message)] /\
    last history ("", "") = ("user", message).
Proof.
  intros Hex. unfold after.
  pose proof (relay_run provider u chatId message w Hex) as Hrun.
  cbv zeta in Hrun. rewrite Hrun.
  eexists. split; [|split; [reflexivity|apply last_last]].
  now destruct (failure _).
Qed.

Lemma relay_history_witness :
  exists history,
    upstream_log (after (post_chat_stream demo_provider (Some alice) 1 "how are you")
                        demo_world) =
      upstream_log demo_world ++ [history] /\
    history = select_messages 1 (db demo_world) ++ [("user", "how are you")] /\
    last history ("", "") = ("user", "how are you").
Proof.
  apply (relay_history_ends_with_user_turn demo_provider alice 1 "how are you"
           demo_world); reflexivity.
Defined.

(** ** The message store *)


Lemma filter_own_session chatId (ms : list (string * string)) :
  map role_content
    (filter (message_of chatId)
       (map (fun m => mkMessage chatId (fst m) (snd m)) ms)) = ms.
Proof.
  induction ms as [|[r c] ms IH]; [reflexivity|].
  cbn [map filter]. unfold message_of at 1. cbn [msg_chat_id].
  rewrite Z.eqb_refl. cbn [map]. unfold role_content at 1. cbn. now rewrite IH.
Qed.

Lemma get_messages_run u chatId w :
  serve (get_messages (Some u) chatId) w =
  Ok tt (mkCtx w (mkResponse 200 [] (JsonRows (select_messages chatId (db w)))
                             [] true)).
Proof. reflexivity. Qed.




(** The same on concrete values: session 1 reads back its three messages,
    session 2 its own two. *)
Example read_back_scenario :
  select_messages 1
    (mkDB [] [] [mkChat 1 7 "New Chat"; mkChat 2 8 "New Chat"]
          [mkMessage 2 "user" "elsewhere"; mkMessage 1 "user" "m1";
           mkMessage 2 "assistant" "x"; mkMessage 1 "assistant" "m2";
           mkMessage 1 "user" "m3"]) =
    [("user", "m1"); ("assistant", "m2"); ("user", "m3")] /\
  select_messages 2
    (mkDB [] [] [mkChat 1 7 "New Chat"; mkChat 2 8 "New Chat"]
          [mkMessage 2 "user" "elsewhere"; mkMessage 1 "user" "m1";
           mkMessage 2 "assistant" "x"; mkMessage 1 "assistant" "m2";
           mkMessage 1 "user" "m3"]) =
    [("user", "elsewhere"); ("assistant", "x")].
Proof. split; reflexivity. Qed.

(** C5. A chat turn on a session id that references no session: the insert
    of the user message is rejected with [SessionNotFound], the store is
    unchanged (no record, whole or partial), and the handler stops there:
    no history is loaded, the upstream client is not called, nothing is
    written to the response and no assistant message is committed. *)
Theorem relay_unknown_session provider u chatId message w :
  chat_exists chatId (db w) = false ->
  serve (post_chat_stream provider (Some u) chatId message) w =
    Throw SessionNotFound
          (mkCtx w (mkResponse 200 stream_headers NoBody [] false)) /\
  insert_message chatId "user" message (db w) = None /\
  after (post_chat_stream provider (Some u) chatId message) w = w.
Proof.
  intros Hno.
  assert (Hins : insert_message chatId "user" message (db w) = None)
    by (unfold insert_message; now rewrite Hno).
  assert (Hrun : serve (post_chat_stream provider (Some u) chatId message) w =
                 Throw SessionNotFound
                   (mkCtx w (mkResponse 200 stream_headers NoBody [] false))).
  { unfold serve, post_chat_stream, auth, setHeader, db_insert_message,
      modify, bind. simpl. rewrite Hins. now destruct w. }
  unfold after. rewrite Hrun. auto.
Qed.

Lemma relay_unknown_session_witness :
  serve (post_chat_stream demo_provider (Some alice) 42 "hello") demo_world =
    Throw SessionNotFound
          (mkCtx demo_world (mkResponse 200 stream_headers NoBody [] false)) /\
  insert_message 42 "user" "hello" (db demo_world) = None /\
  after (post_chat_stream demo_provider (Some alice) 42 "hello") demo_world =
    demo_world.
Proof.
  apply (relay_unknown_session demo_provider alice 42 "hello" demo_world).
  reflexivity.
Defined.

(** ** Access to a session *)

(** C6 on the code: bob, authenticated, asks for the messages of the
    session alice owns and receives them with status 200, not Forbidden.
    The owner is stored with the session, and the list of sessions is
    filtered on it: bob's list is empty, alice's holds session 1.  A turn
    bob posts on alice's session is accepted and stored in it as well. *)
Lemma foreign_session_is_readable :
  map chat_user_id (filter (fun c => chat_id c =? 1) (chats (db demo_world))) =
    [caller_id alice] /\
  caller_id bob <> caller_id alice /\
  foreign_read =
    Ok tt (mkCtx demo_world (mkResponse 200 [] (JsonRows [("user", "hi")]) [] true)) /\
  reply (get_chats (Some bob)) demo_world =
    mkResponse 200 [] (JsonChats []) [] true /\
  reply (get_chats (Some alice)) demo_world =
    mkResponse 200 [] (JsonChats [mkChat 1 7 "New Chat"]) [] true /\
  messages (db (after (post_chat_stream demo_provider (Some bob) 1 "mine now")
                      demo_world)) =
    [mkMessage 1 "user" "hi"; mkMessage 1 "user" "mine now";
     mkMessage 1 "assistant" "I'm fine, thanks"].
Proof. repeat split. discriminate. Qed.

(** The two endpoints that take a session id behave the same for any two
    authenticated callers, whoever owns the session; a request without a
    resolved identity is answered 401 and touches nothing. *)
Theorem session_endpoints_check_authentication_only
    provider (u u' : Caller) chatId message w :
  serve (get_messages (Some u) chatId) w =
    Ok tt (mkCtx w (mkResponse 200 [] (JsonRows (select_messages chatId (db w)))
                               [] true)) /\
  serve (get_messages (Some u) chatId) w = serve (get_messages (Some u') chatId) w /\
  serve (post_chat_stream provider (Some u) chatId message) w =
    serve (post_chat_stream provider (Some u') chatId message) w /\
  serve (get_messages None chatId) w =
    Ok tt (mkCtx w (mkResponse 401 [] (JsonError "Unauthorized") [] true)) /\
  serve (post_chat_stream provider None chatId message) w =
    Ok tt (mkCtx w (mkResponse 401 [] (JsonError "Unauthorized") [] true)).
Proof. repeat split. Qed.

(** ** One-time codes *)

Lemma filter_filter_length {A} (p q : A -> bool) (l : list A) :
  (List.length (filter p (filter q l)) <= List.length (filter p l))%nat.
Proof.
  induction l as [|a l IH]; [apply le_n|].
  cbn [filter]. destruct (q a), (p a) eqn:Hp; cbn [filter List.length];
    try rewrite Hp; cbn [List.length]; lia.
Qed.

Lemma filter_both_length {A} (p q : A -> bool) (l : list A) :
  (List.length (filter (fun a => p a && q a) l) <= List.length (filter p l))%nat.
Proof.
  induction l as [|a l IH]; [apply le_n|].
  cbn [filter]. destruct (p a), (q a); cbn [andb List.length]; lia.
Qed.

Lemma filter_deleted email (l : list OtpRow) :
  filter (otp_for email) (filter (fun o => negb (otp_for email o)) l) = [].
Proof.
  induction l as [|o l IH]; [reflexivity|].
  cbn [filter]. destruct (otp_for email o) eqn:Ho; cbn [negb filter]; [exact IH|].
  now rewrite Ho.
Qed.

Lemma find_deleted email code (l : list OtpRow) :
  find (otp_matches email code) (filter (fun o => negb (otp_for email o)) l) = None.
Proof.
  induction l as [|o l IH]; [reflexivity|].
  cbn [filter]. destruct (otp_for email o) eqn:Ho; cbn [negb find]; [exact IH|].
  unfold otp_matches. unfold otp_for in Ho. now rewrite Ho.
Qed.

Lemma delete_otps_unique email d : otp_unique d -> otp_unique (delete_otps email d).
Proof.
  intros H e. unfold delete_otps, set_otps. cbn [otps].
  eapply Nat.le_trans; [apply filter_filter_length | apply H].
Qed.

(** The store after [POST /api/send-otp], delivered or not. *)
Lemma send_otp_db email random now delivered w :
  db (after (post_send_otp email random now delivered) w) =
  insert_otp email (otp_code_of random) (now + 5 * 60 * 1000)
             (delete_otps email (db w)).
Proof. destruct delivered; reflexivity. Qed.

Lemma issued_rows email code expires d :
  filter (otp_for email) (otps (insert_otp email code expires (delete_otps email d))) =
  [mkOtp email code expires].
Proof.
  unfold insert_otp, delete_otps, set_otps. cbn [otps].
  rewrite filter_app, filter_deleted. cbn [filter app].
  unfold otp_for. cbn [otp_email]. now rewrite String.eqb_refl.
Qed.

Lemma issued_lookup email code expires d c :
  get_otp email c (insert_otp email code expires (delete_otps email d)) =
  if String.eqb code c then Some (mkOtp email code expires) else None.
Proof.
  unfold get_otp, insert_otp, delete_otps, set_otps. cbn [otps].
  induction (otps d) as [|o l IH].
  - cbn. unfold otp_matches. cbn. now rewrite String.eqb_refl.
  - cbn [filter]. destruct (otp_for email o) eqn:Ho; cbn [negb]; [exact IH|].
    cbn [app find]. unfold otp_matches at 1. unfold otp_for in Ho.
    now rewrite Ho.
Qed.

Lemma send_otp_unique email code expires d :
  otp_unique d -> otp_unique (insert_otp email code expires (delete_otps email d)).
Proof.
  intros H e. destruct (String.eqb_spec email e) as [<-|Hne].
  - now rewrite issued_rows.
  - unfold insert_otp, delete_otps, set_otps. cbn [otps].
    rewrite filter_app. cbn [filter].
    replace (otp_for e (mkOtp email code expires)) with false
      by (symmetry; now apply String.eqb_neq).
    rewrite app_nil_r.
    eapply Nat.le_trans; [apply filter_filter_length | apply H].
Qed.

(** The store after [POST /api/verify-otp]. *)
Lemma verify_otp_db email code now w :
  db (after (post_verify_otp email code now) w) =
  match get_otp email code (db w) with
  | None => db w
  | Some o => if otp_expires_at o <? now then db w
              else delete_otps email (verify_users email (db w))
  end.
Proof.
  unfold after, serve, post_verify_otp, bind, db_query, gets. cbn [world].
  destruct (get_otp email code (db w)) as [o|]; [|reflexivity].
  destruct (otp_expires_at o <? now); reflexivity.
Qed.

(** The relay never touches the table of codes. *)
Lemma chat_stream_otps provider user chatId message w :
  otps (db (after (post_chat_stream provider user chatId message) w)) = otps (db w).
Proof.
  destruct user as [u|]; [|reflexivity].
  destruct (chat_exists chatId (db w)) eqn:Hex.
  - unfold after. pose proof (relay_run provider u chatId message w Hex) as Hrun.
    cbv zeta in Hrun. rewrite Hrun. now destruct (failure _).
  - unfold after.
    assert (Hins : insert_message chatId "user" message (db w) = None)
      by (unfold insert_message; now rewrite Hex).
    unfold serve, post_chat_stream, auth, setHeader, db_insert_message,
      modify, bind. simpl. now rewrite Hins.
Qed.

Lemma step_keeps_unique `{Crypto} r w :
  otp_unique (db w) -> otp_unique (db (step r w)).
Proof.
  intros Hw. destruct r as [email password | email random now delivered
                           | email code now | email password | user
                           | provider user chatId message | user chatId
                           | user];
    unfold step, handle.
  - fold (after (post_register email password) w).
    unfold after, serve, post_register, bind, db_query, gets. cbn [world].
    destruct (insert_user email (bcrypt_hash password) (db w)) as [d|] eqn:Hins;
      [|exact Hw].
    unfold insert_user in Hins. destruct (existsb _ _); [discriminate|].
    injection Hins as <-. exact Hw.
  - fold (after (post_send_otp email random now delivered) w).
    rewrite send_otp_db. now apply send_otp_unique.
  - fold (after (post_verify_otp email code now) w).
    rewrite verify_otp_db.
    destruct (get_otp email code (db w)) as [o|]; [|exact Hw].
    destruct (otp_expires_at o <? now); [exact Hw|].
    apply delete_otps_unique. exact Hw.
  - fold (after (post_login email password) w).
    unfold after, serve, post_login, bind, db_query, gets. cbn [world].
    destruct (get_user email (db w)) as [u|]; [|exact Hw].
    destruct (user_verified u =? 0); [exact Hw|].
    destruct (negb _); exact Hw.
  - destruct user; exact Hw.
  - fold (after (post_chat_stream provider user chatId message) w).
    intros e. rewrite chat_stream_otps. apply Hw.
  - destruct user; exact Hw.
  - destruct user; exact Hw.
Qed.

Lemma reachable_unique `{Crypto} w : reachable w -> otp_unique (db w).
Proof.
  induction 1 as [|w r _ IH].
  - intros e. apply Nat.le_0_l.
  - now apply step_keeps_unique.
Qed.

(** Requests served one at a time.  In every state the server reaches that
    way each email has at most one stored code, hence at most one live code
    at any time [t].  Issuing a code for an email, served that way, leaves
    exactly one record for it, the new one, whose expiry is the issuance
    time plus the fixed five-minute window; any other code no longer
    verifies for that email. *)
Theorem one_live_code_per_email `{Crypto}
    w email t random now delivered stale :
  reachable w ->
  stale <> otp_code_of random ->
  (List.length (filter (otp_for email) (otps (db w))) <= 1)%nat /\
  (List.length (filter (fun o => otp_for email o && live t o) (otps (db w))) <= 1)%nat /\
  filter (otp_for email) (otps (db (step (SendOtp email random now delivered) w))) =
    [mkOtp email (otp_code_of random) (now + 300000)] /\
  get_otp email stale (db (step (SendOtp email random now delivered) w)) = None.
Proof.
  intros Hreach Hstale.
  pose proof (reachable_unique w Hreach email) as Hone.
  split; [exact Hone|]. split.
  - eapply Nat.le_trans; [apply filter_both_length | exact Hone].
  - unfold step, handle.
    fold (after (post_send_otp email random now delivered) w).
    rewrite send_otp_db. split; [apply issued_rows|].
    rewrite issued_lookup.
    destruct (String.eqb_spec (otp_code_of random) stale); congruence.
Qed.

Lemma one_live_code_witness :
  (List.length (filter (otp_for "a@example.com") (otps (db otp_world))) <= 1)%nat /\
  (List.length (filter (fun o => otp_for "a@example.com" o && live 2500 o)
                       (otps (db otp_world))) <= 1)%nat /\
  filter (otp_for "a@example.com")
         (otps (db (@step toy_crypto
                      (SendOtp "a@example.com" (S754_zero false) 3000 true)
                      otp_world))) =
    [mkOtp "a@example.com" (otp_code_of (S754_zero false)) (3000 + 300000)] /\
  get_otp "a@example.com" "550000"
          (db (@step toy_crypto
                 (SendOtp "a@example.com" (S754_zero false) 3000 true)
                 otp_world)) = None.
Proof.
  apply (@one_live_code_per_email toy_crypto otp_world "a@example.com" 2500
           (S754_zero false) 3000 true "550000").
  - unfold otp_world. repeat apply @reach_step. apply @reach_initial.
  - vm_compute. discriminate.
Defined.

(** The code issued first for a@example.com was replaced by the second. *)
Example reissue_supersedes :
  otps (db otp_world) =
    [mkOtp "b@example.com" "100000" 301500; mkOtp "a@example.com" "550000" 302000].
Proof. reflexivity. Qed.

Lemma verify_users_marks email d u :
  In u (users (verify_users email d)) -> user_email u = email -> user_verified u = 1.
Proof.
  unfold verify_users, set_users. cbn [users]. rewrite in_map_iff.
  intros [v [Hv _]] He. unfold user_for in Hv.
  destruct (String.eqb_spec (user_email v) email) as [Heq|Hne].
  - now subst u.
  - subst u. contradiction.
Qed.

Lemma verify_otp_rejects email code now w :
  get_otp email code (db w) = None ->
  serve (post_verify_otp email code now) w = Ok tt (mkCtx w invalid_otp).
Proof.
  intros Hnone. unfold serve, post_verify_otp, bind, db_query, gets.
  cbn [world]. now rewrite Hnone.
Qed.

(** C8. After a code is issued for an email: a wrong code is answered with
    the invalid-code error and changes nothing; the issued code, presented
    no later than its expiry, is accepted, and the table of users afterwards
    is the one from before the issuance with [verified] set to 1 on every
    account of that email and every other row, column and the order left as
    they were, so an account that existed is still there and is verified;
    the code is deleted; presenting the same code again is answered with the
    invalid-code error and changes nothing. *)
Theorem otp_verifies_exactly_once
    email random now delivered w wrong t_wrong t t_again :
  wrong <> otp_code_of random ->
  t <= now + 5 * 60 * 1000 ->
  let code := otp_code_of random in
  let w1 := after (post_send_otp email random now delivered) w in
  let w2 := after (post_verify_otp email code t) w1 in
  serve (post_verify_otp email wrong t_wrong) w1 = Ok tt (mkCtx w1 invalid_otp) /\
  serve (post_verify_otp email code t) w1 =
    Ok tt (mkCtx w2 (mkResponse 200 [] JsonOk [] true)) /\
  (forall u, In u (users (db w2)) -> user_email u = email -> user_verified u = 1) /\
  filter (otp_for email) (otps (db w2)) = [] /\
  serve (post_verify_otp email code t_again) w2 = Ok tt (mkCtx w2 invalid_otp) /\
  users (db w2) =
    map (fun u => if String.eqb (user_email u) email
                  then mkUser (user_id u) (user_email u) (user_password u) 1
                  else u) (users (db w)) /\
  (forall u, In u (users (db w)) -> user_email u = email ->
             In (mkUser (user_id u) email (user_password u) 1) (users (db w2))).
Proof.
  intros Hwrong Ht code w1 w2.
  assert (Hdb1 : db w1 = insert_otp email code (now + 5 * 60 * 1000)
                           (delete_otps email (db w)))
    by apply send_otp_db.
  assert (Hhit : get_otp email code (db w1) =
                 Some (mkOtp email code (now + 5 * 60 * 1000))).
  { rewrite Hdb1, issued_lookup. now rewrite String.eqb_refl. }
  assert (Hfresh : (now + 5 * 60 * 1000 <? t) = false) by (apply Z.ltb_ge; lia).
  assert (Hdb2 : db w2 = delete_otps email (verify_users email (db w1))).
  { unfold w2. rewrite verify_otp_db, Hhit. cbn [otp_expires_at].
    now rewrite Hfresh. }
  assert (Husers : users (db w2) =
    map (fun u => if String.eqb (user_email u) email
                  then mkUser (user_id u) (user_email u) (user_password u) 1
                  else u) (users (db w))).
  { rewrite Hdb2, Hdb1. reflexivity. }
  split; [|split; [|split; [|split; [|split; [|split]]]]].
  - apply verify_otp_rejects. rewrite Hdb1, issued_lookup.
    destruct (String.eqb_spec code wrong) as [Heq|_]; [|reflexivity].
    now elim Hwrong.
  - unfold w2, after, serve, post_verify_otp, bind, db_query, gets.
    cbn [world]. rewrite Hhit. cbn [otp_expires_at]. rewrite Hfresh.
    reflexivity.
  - intros u Hin. rewrite Hdb2 in Hin. apply verify_users_marks with (d := db w1).
    exact Hin.
  - rewrite Hdb2. unfold delete_otps, set_otps. cbn [otps]. apply filter_deleted.
  - apply verify_otp_rejects. rewrite Hdb2. unfold get_otp, delete_otps, set_otps.
    cbn [otps]. apply find_deleted.
  - exact Husers.
  - intros u Hin Hemail. rewrite Husers. apply in_map_iff. exists u.
    split; [|exact Hin]. rewrite Hemail, String.eqb_refl. reflexivity.
Qed.

Lemma otp_verifies_witness :
  serve (post_verify_otp "a@example.com" "123456" 2000) otp_issued =
    Ok tt (mkCtx otp_issued invalid_otp) /\
  serve (post_verify_otp "a@example.com" "550000" 301000) otp_issued =
    Ok tt (mkCtx otp_consumed (mkResponse 200 [] JsonOk [] true)) /\
  (forall u, In u (users (db otp_consumed)) -> user_email u = "a@example.com" ->
             user_verified u = 1) /\
  filter (otp_for "a@example.com") (otps (db otp_consumed)) = [] /\
  serve (post_verify_otp "a@example.com" "550000" 301001) otp_consumed =
    Ok tt (mkCtx otp_consumed invalid_otp) /\
  users (db otp_consumed) =
    map (fun u => if String.eqb (user_email u) "a@example.com"
                  then mkUser (user_id u) (user_email u) (user_password u) 1
                  else u) (users (db otp_account)) /\
  (forall u, In u (users (db otp_account)) -> user_email u = "a@example.com" ->
             In (mkUser (user_id u) "a@example.com" (user_password u) 1)
                (users (db otp_consumed))).
Proof.
  apply (otp_verifies_exactly_once "a@example.com"
           (S754_finite false (2 ^ 52) (-53)) 1000 true otp_account
           "123456" 2000 301000 301001).
  - vm_compute. discriminate.
  - lia.
Defined.

(** The scenario on concrete values: the account ends up verified. *)
Example otp_scenario :
  users (db otp_issued) = [mkUser 1 "a@example.com" "$2b$secret" 0] /\
  otps (db otp_issued) = [mkOtp "a@example.com" "550000" 301000] /\
  users (db otp_consumed) = [mkUser 1 "a@example.com" "$2b$secret" 1] /\
  otps (db otp_consumed) = [].
Proof. repeat split. Qed.

(** ** Login *)

(** C10. For an account that is registered and not verified, the login
    handler answers 403 "Email not verified" and changes nothing, whatever
    password is submitted and whatever [bcrypt.compare] would say: the
    answer is the same for any two passwords and any two implementations of
    the comparison. *)
Theorem login_unverified_ignores_password
    (c1 c2 : Crypto) email u w password password' :
  get_user email (db w) = Some u ->
  user_verified u = 0 ->
  serve (@post_login c1 email password) w = Ok tt (mkCtx w not_verified) /\
  serve (@post_login c1 email password) w = serve (@post_login c2 email password') w.
Proof.
  intros Hu Hv.
  assert (Hrun : forall c p, serve (@post_login c email p) w =
                             Ok tt (mkCtx w not_verified)).
  { intros c p. unfold serve, post_login, bind, db_query, gets. cbn [world].
    rewrite Hu, Hv. reflexivity. }
  now rewrite !Hrun.
Qed.

Lemma login_unverified_witness :
  serve (@post_login toy_crypto "a@example.com" "secret") otp_account =
    Ok tt (mkCtx otp_account not_verified) /\
  serve (@post_login toy_crypto "a@example.com" "secret") otp_account =
  serve (@post_login toy_crypto "a@example.com" "wrong") otp_account.
Proof.
  apply (login_unverified_ignores_password toy_crypto toy_crypto "a@example.com"
           (mkUser 1 "a@example.com" "$2b$secret" 0)); reflexivity.
Defined.

(** Once the account is verified the password does decide the answer. *)
Example login_verified_compares :
  reply (@post_login toy_crypto "a@example.com" "secret") demo_world =
    mkResponse 200 [] (JsonToken "jwt:a@example.com") [] true /\
  reply (@post_login toy_crypto "a@example.com" "wrong") demo_world =
    mkResponse 400 [] (JsonError "Wrong password") [] true.
Proof. split; reflexivity. Qed.

(** ** JavaScript numbers: the range of the generated code *)

Lemma digits2_size p : digits2_pos p = Pos.size p.
Proof. induction p; simpl; congruence. Qed.

Lemma digits2_bounds p :
  2 ^ (Zpos (digits2_pos p) - 1) <= Zpos p < 2 ^ Zpos (digits2_pos p).
Proof.
  rewrite digits2_size. split.
  - pose proof (Pos.size_le p) as H.
    assert (2 ^ Zpos (Pos.size p) <= 2 * Zpos p).
    { rewrite <- Pos2Z.inj_pow. change (2 * Zpos p) with (Zpos p~0).
      now apply Pos2Z.pos_le_pos. }
    replace (Zpos (Pos.size p)) with (Zpos (Pos.size p) - 1 + 1) in H0 by lia.
    rewrite Z.pow_add_r in H0 by lia. lia.
  - rewrite <- Pos2Z.inj_pow. apply Pos2Z.pos_lt_pos, Pos.size_gt.
Qed.

Lemma shr_1_spec mrs :
  0 <= shr_m mrs ->
  shr_1 mrs = Build_shr_record (shr_m mrs / 2) (Z.odd (shr_m mrs))
                               (shr_r mrs || shr_s mrs).
Proof.
  destruct mrs as [m r s]. cbn [shr_m shr_r shr_s]. intros Hm.
  destruct m as [|p|p]; [reflexivity| |lia].
  destruct p as [p|p|]; cbn [shr_1]; [| |reflexivity].
  - replace (Z.pos p~1 / 2) with (Z.pos p); [reflexivity|].
    apply Z.div_unique with 1; lia.
  - replace (Z.pos p~0 / 2) with (Z.pos p); [reflexivity|].
    apply Z.div_unique with 0; lia.
Qed.

Lemma shr_1_inv M n mrs :
  0 <= M -> 0 <= n ->
  shr_inv M n mrs -> shr_inv M (n + 1) (shr_1 mrs).
Proof.
  intros HM Hn [Hm Hloc].
  assert (HP : 0 < 2 ^ n) by (apply Z.pow_pos_nonneg; lia).
  assert (Hq : 0 <= M / 2 ^ n) by (apply Z.div_pos; lia).
  rewrite shr_1_spec by lia.
  unfold shr_inv. cbn [shr_m shr_r shr_s].
  rewrite Z.pow_add_r, Z.pow_1_r by lia.
  split.
  - rewrite Hm. now rewrite Z.div_div by lia.
  - rewrite Z.rem_mul_r by lia. rewrite Hm, Zmod_odd.
    pose proof (Z.mod_pos_bound M (2 ^ n) HP) as Hrem.
    destruct (Z.odd (M / 2 ^ n)), (shr_r mrs), (shr_s mrs);
      cbn [loc_agrees orb] in *; lia.
Qed.

Lemma iter_shr_inv p : forall M n mrs,
  0 <= M -> 0 <= n ->
  shr_inv M n mrs -> shr_inv M (n + Zpos p) (iter_pos shr_1 p mrs).
Proof.
  induction p as [p IH|p IH|]; intros M n mrs HM Hn Hinv; cbn [iter_pos].
  - replace (n + Zpos p~1) with (n + 1 + Zpos p + Zpos p) by lia.
    apply IH; [lia|lia|]. apply IH; [lia|lia|]. now apply shr_1_inv.
  - replace (n + Zpos p~0) with (n + Zpos p + Zpos p) by lia.
    apply IH; [lia|lia|]. now apply IH.
  - now apply shr_1_inv.
Qed.

Lemma shr_inv_start M : shr_inv M 0 (Build_shr_record M false false).
Proof.
  unfold shr_inv. cbn. rewrite Z.div_1_r, Z.mod_1_r. auto.
Qed.

(** Rounding to nearest: the rounded mantissa is the quotient or its
    successor and lies within half a unit of the exact value. *)
Lemma round_nearest_even_bounds M n mrs :
  0 <= M -> 0 <= n -> shr_inv M n mrs ->
  let m1 := round_nearest_even (shr_m mrs) (loc_of_shr_record mrs) in
  M / 2 ^ n <= m1 <= M / 2 ^ n + 1 /\
  2 * m1 * 2 ^ n <= 2 * M + 2 ^ n.
Proof.
  intros HM Hn [Hm Hloc] m1. subst m1.
  assert (HP : 0 < 2 ^ n) by (apply Z.pow_pos_nonneg; lia).
  pose proof (Z.div_mod M (2 ^ n) ltac:(lia)) as Hdm.
  pose proof (Z.mod_pos_bound M (2 ^ n) HP) as Hrem.
  destruct mrs as [m r s]. cbn [shr_m shr_r shr_s] in *. subst m.
  destruct r, s; cbn [loc_of_shr_record round_nearest_even loc_agrees] in *;
    try destruct (Z.even (M / 2 ^ n)); nia.
Qed.

Lemma shr_noop mrs e n : n <= 0 -> shr mrs e n = (mrs, e).
Proof. destruct n; [reflexivity|lia|reflexivity]. Qed.

Lemma shr_shifts M e n :
  0 <= M -> 0 < n ->
  exists mrs, shr (Build_shr_record M false false) e n = (mrs, e + n) /\
              shr_inv M n mrs.
Proof.
  intros HM Hn. destruct n as [|p|p]; try lia.
  eexists. split; [reflexivity|].
  change (Zpos p) with (0 + Zpos p).
  apply iter_shr_inv; [lia|lia|apply shr_inv_start].
Qed.

Lemma fexp64 e : fexp 53 1024 e = Z.max (e - 53) (-1074).
Proof. reflexivity. Qed.

(** The second normalisation of [binary_round_aux]: a mantissa of at most
    53 bits is kept, and 2^53 is renormalised to 2^52 one exponent up. *)
Lemma renormalise m1 eg :
  0 <= m1 <= 2 ^ 53 -> -1074 <= eg <= 970 ->
  exists m e,
    (let '(mrs, e') := shr_fexp 53 1024 m1 eg loc_Exact in
     match shr_m mrs with
     | Z0 => S754_zero false
     | Zpos m => if e' <=? 1024 - 53 then S754_finite false m e'
                 else S754_infinity false
     | Zneg _ => S754_nan
     end) = float_of m e /\
    eg <= e <= eg + 1 /\ m * 2 ^ (e - eg) = m1 /\ 0 <= m.
Proof.
  intros Hm Heg. unfold shr_fexp. cbn [shr_record_of_loc].
  destruct m1 as [|p|p]; [| |lia].
  - exists 0, eg. cbn [Zdigits2]. rewrite shr_noop by (rewrite fexp64; lia).
    cbn. repeat split; lia.
  - cbn [Zdigits2]. pose proof (digits2_bounds p) as Hd.
    destruct (Z.eq_dec (Zpos p) (2 ^ 53)) as [Heq|Hne].
    + injection Heq as ->. exists (2 ^ 52), (eg + 1).
      change (Zpos (digits2_pos 9007199254740992)) with 54.
      rewrite fexp64. replace (Z.max (54 + eg - 53) (-1074) - eg) with 1 by lia.
      cbn [shr iter_pos shr_1 shr_m].
      replace (eg + 1 <=? 1024 - 53) with true by (symmetry; apply Z.leb_le; lia).
      replace (eg + 1 - eg) with 1 by lia.
      repeat split; try lia; reflexivity.
    + assert (Hlt : Zpos p < 2 ^ 53) by lia.
      assert (Hd53 : Zpos (digits2_pos p) <= 53).
      { destruct (Z_le_gt_dec (Zpos (digits2_pos p)) 53) as [|Hgt]; [assumption|].
        assert (2 ^ 53 <= 2 ^ (Zpos (digits2_pos p) - 1))
          by (apply Z.pow_le_mono_r; lia).
        lia. }
      exists (Zpos p), eg.
      rewrite shr_noop by (rewrite fexp64; lia).
      cbn [shr_m float_of].
      replace (eg <=? 1024 - 53) with true by (symmetry; apply Z.leb_le; lia).
      rewrite Z.sub_diag. repeat split; lia.
Qed.

Lemma round_aux_spec mp E :
  let d := Zpos (digits2_pos mp) in
  let eg := Z.max (fexp 53 1024 (d + E)) E in
  d + E <= 1000 -> E <= 970 ->
  exists m1 m e,
    binary_round_aux 53 1024 false (Zpos mp) E loc_Exact = float_of m e /\
    Zpos mp / 2 ^ (eg - E) <= m1 <= Zpos mp / 2 ^ (eg - E) + 1 /\
    2 * m1 * 2 ^ (eg - E) <= 2 * Zpos mp + 2 ^ (eg - E) /\
    eg <= e <= eg + 1 /\ m * 2 ^ (e - eg) = m1 /\ 0 <= m /\ m1 <= 2 ^ 53.
Proof.
  intros d eg HdE HE.
  pose proof (digits2_bounds mp) as Hd. fold d in Hd.
  assert (Hdpos : 0 < d) by (unfold d; lia).
  unfold binary_round_aux.
  unfold shr_fexp at 1. cbn [shr_record_of_loc Zdigits2]. fold d.
  destruct (Z_le_gt_dec (fexp 53 1024 (d + E)) E) as [Hno|Hshift].
  - rewrite shr_noop by lia.
    cbn [shr_m loc_of_shr_record round_nearest_even].
    assert (Heg : eg = E) by (unfold eg; lia).
    rewrite fexp64 in Hno.
    assert (Hm53 : Zpos mp < 2 ^ 53).
    { apply Z.lt_le_trans with (2 ^ d); [lia|]. apply Z.pow_le_mono_r; lia. }
    destruct (renormalise (Zpos mp) E ltac:(lia) ltac:(lia))
      as (m & e & Hres & He & Hval & Hm0).
    exists (Zpos mp), m, e. rewrite Heg, Z.sub_diag, Z.pow_0_r, Z.div_1_r.
    repeat split; try lia. exact Hres.
  - destruct (shr_shifts (Zpos mp) E (fexp 53 1024 (d + E) - E) ltac:(lia) ltac:(lia))
      as (mrs & Hshr & Hinv).
    rewrite Hshr.
    assert (Heg : eg = fexp 53 1024 (d + E)) by (unfold eg; lia).
    replace (E + (fexp 53 1024 (d + E) - E)) with eg by lia.
    rewrite <- Heg in Hinv.
    pose proof (round_nearest_even_bounds (Zpos mp) (eg - E) mrs
                  ltac:(lia) ltac:(lia) Hinv) as [Hq Hhalf].
    cbv zeta in Hq, Hhalf.
    set (m1 := round_nearest_even (shr_m mrs) (loc_of_shr_record mrs)) in *.
    rewrite fexp64 in Heg.
    assert (Hqlt : Zpos mp / 2 ^ (eg - E) < 2 ^ 53).
    { apply Z.div_lt_upper_bound; [apply Z.pow_pos_nonneg; lia|].
      rewrite <- Z.pow_add_r by lia.
      apply Z.lt_le_trans with (2 ^ d); [lia|]. apply Z.pow_le_mono_r; lia. }
    assert (Hq0 : 0 <= Zpos mp / 2 ^ (eg - E))
      by (apply Z.div_pos; [lia|apply Z.pow_pos_nonneg; lia]).
    destruct (renormalise m1 eg ltac:(lia) ltac:(lia))
      as (m & e & Hres & He & Hval & Hm0).
    exists m1, m, e. repeat split; try lia. exact Hres.
Qed.

Lemma pow2_pos n : 0 <= n -> 0 < 2 ^ n.
Proof. intros. apply Z.pow_pos_nonneg; lia. Qed.

(** Comparing [m1 * 2^e1] with [m2 * 2^e2] at one common exponent settles
    it at every common exponent. *)
Lemma scale_le_any a0 a m1 e1 m2 e2 :
  a0 <= e1 -> a0 <= e2 -> a <= e1 -> a <= e2 ->
  m1 * 2 ^ (e1 - a0) <= m2 * 2 ^ (e2 - a0) ->
  m1 * 2 ^ (e1 - a) <= m2 * 2 ^ (e2 - a).
Proof.
  intros H1 H2 H3 H4 Hle.
  destruct (Z_le_gt_dec a a0) as [Hlow|Hhigh].
  - replace (e1 - a) with (e1 - a0 + (a0 - a)) by lia.
    replace (e2 - a) with (e2 - a0 + (a0 - a)) by lia.
    rewrite !Z.pow_add_r by lia.
    pose proof (pow2_pos (a0 - a) ltac:(lia)). nia.
  - replace (e1 - a0) with (e1 - a + (a - a0)) in Hle by lia.
    replace (e2 - a0) with (e2 - a + (a - a0)) in Hle by lia.
    rewrite !Z.pow_add_r in Hle by lia.
    pose proof (pow2_pos (a - a0) ltac:(lia)). nia.
Qed.

Lemma of_Z_0 : Num.of_Z 0 = S754_zero false.
Proof. reflexivity. Qed.

Lemma of_Z_1 : Num.of_Z 1 = S754_finite false 4503599627370496 (-52).
Proof. vm_compute. reflexivity. Qed.

Lemma of_Z_100000 : Num.of_Z 100000 = S754_finite false 6871947673600000 (-36).
Proof. vm_compute. reflexivity. Qed.

Lemma of_Z_900000 : Num.of_Z 900000 = S754_finite false 7730941132800000 (-33).
Proof. vm_compute. reflexivity. Qed.

(** A value [Math.random()] may return is zero, or positive with a
    mantissa below 2^53 and an exponent of at most -53. *)
Lemma is_random_cases x :
  Num.is_random x = true ->
  (exists s, x = S754_zero s) \/
  (exists m e, x = S754_finite false m e /\ Zpos m < 2 ^ 53 /\ -1074 <= e <= -53).
Proof.
  unfold Num.is_random. rewrite of_Z_0, of_Z_1. intros H.
  apply andb_prop in H as [H Hlt]. apply andb_prop in H as [Hval Hle].
  destruct x as [s|s| |s m e].
  - left. now exists s.
  - destruct s; discriminate.
  - discriminate.
  - right. destruct s; [discriminate|]. exists m, e. split; [reflexivity|].
    cbn [valid_binary] in Hval. unfold bounded, canonical_mantissa in Hval.
    apply andb_prop in Hval as [Hcan _]. apply Z.eqb_eq in Hcan.
    change (fexp Num.prec Num.emax) with (fexp 53 1024) in Hcan.
    rewrite fexp64 in Hcan.
    pose proof (digits2_bounds m) as Hd.
    assert (Hd53 : Zpos (digits2_pos m) <= 53) by lia.
    assert (Hm : Zpos m < 2 ^ 53).
    { apply Z.lt_le_trans with (2 ^ Zpos (digits2_pos m)); [lia|].
      apply Z.pow_le_mono_r; lia. }
    split; [exact Hm|].
    unfold SFltb in Hlt. cbn [SFcompare] in Hlt.
    destruct (Z.compare_spec e (-52)) as [He|He|He]; [|lia|discriminate].
    subst e. exfalso.
    assert (Hc : (m < 4503599627370496)%positive).
    { unfold Pos.lt, Pos.compare. revert Hlt. clear.
      now destruct (Pos.compare_cont Eq m 4503599627370496). }
    clear Hlt. apply Pos2Z.pos_lt_pos in Hc.
    assert (2 ^ 52 <= 2 ^ (Zpos (digits2_pos m) - 1))
      by (apply Z.pow_le_mono_r; lia).
    lia.
Qed.

(** [Math.random() * 900000] is zero, or positive and at most
    [(900000 * 2^33 - 1) * 2^-33], the largest Number below 900000. *)
Lemma mul_random_bound x :
  Num.is_random x = true ->
  (exists s, Num.mul x (Num.of_Z 900000) = S754_zero s) \/
  (exists m e,
     Num.mul x (Num.of_Z 900000) = S754_finite false m e /\
     forall a, a <= e -> a <= -33 ->
               Zpos m * 2 ^ (e - a) <= 7730941132799999 * 2 ^ (-33 - a)).
Proof.
  intros Hx. rewrite of_Z_900000.
  destruct (is_random_cases x Hx) as [[s ->]|(mx & ex & -> & Hmx & Hex)].
  - left. exists s. cbn. now destruct s.
  - unfold Num.mul, SFmul. cbn [xorb].
    change Num.prec with 53. change Num.emax with 1024.
    set (mp := (mx * 7730941132800000)%positive).
    assert (HM : Zpos mp = Zpos mx * 7730941132800000) by reflexivity.
    pose proof (digits2_bounds mp) as Hd.
    set (d := Zpos (digits2_pos mp)) in *.
    assert (Hd106 : d <= 106).
    { destruct (Z_le_gt_dec d 106) as [|Hgt]; [assumption|].
      assert (2 ^ 106 <= 2 ^ (d - 1)) by (apply Z.pow_le_mono_r; lia).
      assert (Zpos mp < 2 ^ 106) by (change (2 ^ 106) with (2 ^ 53 * 2 ^ 53); nia).
      lia. }
    destruct (round_aux_spec mp (ex + -33) ltac:(fold d; lia) ltac:(lia))
      as (m1 & m & e & Hres & Hq & Hhalf & He & Hval & Hm0 & Hm1).
    fold d in Hq, Hhalf, He, Hval.
    rewrite fexp64 in Hq, Hhalf, He, Hval.
    set (eg := Z.max (Z.max (d + (ex + -33) - 53) (-1074)) (ex + -33)) in *.
    assert (Hbound : m1 <= 7730941132799999 * 2 ^ (-33 - eg)).
    { destruct (Z.eq_dec eg (-33)) as [H33|H33].
      - assert (Hex53 : ex = -53) by lia.
        rewrite H33 in Hhalf |- *. subst ex.
        change (2 ^ (-33 - (-53 + -33))) with (2 ^ 53) in Hhalf.
        change (2 ^ (-33 - -33)) with 1.
        rewrite HM in Hhalf. change (2 ^ 53) with 9007199254740992 in *. lia.
      - assert (2 ^ 1 <= 2 ^ (-33 - eg)) by (apply Z.pow_le_mono_r; lia).
        change (2 ^ 53) with 9007199254740992 in *.
        change (2 ^ 1) with 2 in *. lia. }
    rewrite Hres. destruct m as [|pm|pm]; [|clear Hm0|lia].
    + left. now exists false.
    + right. exists pm, e. split; [reflexivity|].
      intros a Ha1 Ha2.
      apply scale_le_any with (a0 := eg); lia.
Qed.

Lemma iter_xO m d : Zpos (Pos.iter xO m d) = Zpos m * 2 ^ Zpos d.
Proof.
  induction d as [|d IH] using Pos.peano_ind.
  - cbn [Pos.iter]. rewrite Z.pow_1_r. lia.
  - rewrite Pos.iter_succ, Pos2Z.inj_xO, IH, Pos2Z.inj_succ, Z.pow_succ_r; lia.
Qed.

(** [shl_align] lowers the exponent to the requested one, when that is
    smaller, and keeps the value. *)
Lemma shl_align_spec mx ex ex' mz ez :
  shl_align mx ex ex' = (mz, ez) ->
  ez = Z.min ex ex' /\ Zpos mz = Zpos mx * 2 ^ (ex - ez).
Proof.
  unfold shl_align. destruct (ex' - ex) as [|p|p] eqn:Hdiff; intros H;
    injection H as <- <-.
  - split; [lia|]. rewrite Z.sub_diag. cbn. lia.
  - split; [lia|]. rewrite Z.sub_diag. cbn. lia.
  - split; [lia|]. rewrite iter_xO. f_equal. f_equal. lia.
Qed.

(** [100000 + y] for a positive [y] of at most the largest Number below
    900000: the sum is a positive Number whose integer part lies between
    100000 and 999999. *)
Lemma add_bound my e :
  (forall a, a <= e -> a <= -33 ->
             Zpos my * 2 ^ (e - a) <= 7730941132799999 * 2 ^ (-33 - a)) ->
  exists m e',
    Num.add (Num.of_Z 100000) (S754_finite false my e) = S754_finite false m e' /\
    100000 <= Z.shiftl (Zpos m) e' <= 999999.
Proof.
  intros Hy. rewrite of_Z_100000. unfold Num.add, SFadd.
  change Num.prec with 53. change Num.emax with 1024.
  set (ez := Z.min (-36) e).
  destruct (shl_align 6871947673600000 (-36) ez) as [ma ea] eqn:Ha.
  destruct (shl_align my e ez) as [mb eb] eqn:Hb.
  apply shl_align_spec in Ha as [Hea HA]. apply shl_align_spec in Hb as [Heb HB].
  cbn [fst cond_Zopp Z.add binary_normalize]. unfold binary_round.
  set (ms := (ma + mb)%positive).
  destruct (shl_align ms ez (fexp 53 1024 (Zpos (digits2_pos ms) + ez)))
    as [mz ez'] eqn:Hz.
  apply shl_align_spec in Hz as [Hez' HZ].
  assert (Hms : Zpos ms = Zpos ma + Zpos mb) by reflexivity.
  assert (Hea' : ea = ez) by lia. assert (Heb' : eb = ez) by lia.
  rewrite Hea' in HA. rewrite Heb' in HB. clear Hea Heb Hea' Heb' ea eb.
  assert (Hlow : ez' <= ez) by lia.
  set (T8 := 2 ^ (-36 - ez')).
  assert (HT8 : 0 < T8) by (apply pow2_pos; lia).
  assert (HAz : Zpos ma * 2 ^ (ez - ez') = 6871947673600000 * T8).
  { rewrite HA, <- Z.mul_assoc, <- Z.pow_add_r by lia.
    unfold T8. do 2 f_equal. lia. }
  assert (HBz : Zpos mb * 2 ^ (ez - ez') = Zpos my * 2 ^ (e - ez')).
  { rewrite HB, <- Z.mul_assoc, <- Z.pow_add_r by lia. do 2 f_equal. lia. }
  assert (HBle : Zpos my * 2 ^ (e - ez') <= 61847529062399992 * T8).
  { pose proof (Hy ez' ltac:(lia) ltac:(lia)) as H.
    replace (-33 - ez') with (3 + (-36 - ez')) in H by lia.
    rewrite Z.pow_add_r in H by lia. fold T8 in H.
    change (2 ^ 3) with 8 in H. lia. }
  assert (HBpos : 0 < Zpos my * 2 ^ (e - ez'))
    by (apply Z.mul_pos_pos; [lia|apply pow2_pos; lia]).
  assert (HMz : 6871947673600000 * T8 < Zpos mz <= 68719476735999992 * T8).
  { rewrite HZ, Hms, Z.mul_add_distr_r, HAz, HBz. lia. }
  clear HA HB HAz HBz HBle HBpos Hms HZ Hy.
  pose proof (digits2_bounds mz) as Hd.
  set (d := Zpos (digits2_pos mz)) in *.
  set (u := d + ez' - 53).
  assert (Hu : -36 <= u <= -33).
  { unfold u. split.
    - destruct (Z_le_gt_dec 17 (d + ez')) as [|Hgt]; [lia|].
      assert (2 ^ d <= 2 ^ (52 + (-36 - ez'))) by (apply Z.pow_le_mono_r; lia).
      rewrite Z.pow_add_r in H by lia. fold T8 in H.
      change (2 ^ 52) with 4503599627370496 in H. lia.
    - destruct (Z_le_gt_dec (d + ez') 20) as [|Hgt]; [lia|].
      assert (2 ^ (56 + (-36 - ez')) <= 2 ^ (d - 1)) by (apply Z.pow_le_mono_r; lia).
      rewrite Z.pow_add_r in H by lia. fold T8 in H.
      change (2 ^ 56) with 72057594037927936 in H. lia. }
  destruct (round_aux_spec mz ez' ltac:(fold d; lia) ltac:(lia))
    as (m1 & m & e1 & Hres & Hq & Hhalf & He & Hval & Hm0 & Hm1).
  fold d in Hq, Hhalf, He, Hval. rewrite fexp64 in Hq, Hhalf, He, Hval.
  replace (Z.max (Z.max (d + ez' - 53) (-1074)) ez') with u in * by lia.
  rewrite Hres.
  set (P := 2 ^ (u - ez')) in *.
  assert (HP : 0 < P) by (apply pow2_pos; lia).
  assert (HPT : P = 2 ^ (u + 36) * T8).
  { unfold P, T8. rewrite <- Z.pow_add_r by lia. f_equal. lia. }
  change (2 ^ 53) with 9007199254740992 in Hm1.
  assert (HL : 100000 * 2 ^ (- u) <= m1).
  { apply Z.le_trans with (Zpos mz / P); [|lia].
    apply Z.div_le_lower_bound; [lia|].
    replace (P * (100000 * 2 ^ (- u))) with (100000 * (2 ^ (- u) * P)) by ring.
    unfold P. rewrite <- Z.pow_add_r by lia.
    replace (- u + (u - ez')) with (36 + (-36 - ez')) by lia.
    rewrite Z.pow_add_r by lia. fold T8.
    change (2 ^ 36) with 68719476736. lia. }
  assert (HU : m1 * 2 ^ (u + 36) <= 68719476735999992).
  { destruct (Z.eq_dec u (-33)) as [H33|H33].
    - rewrite H33 in HPT |- *. change (2 ^ (-33 + 36)) with 8 in *.
      rewrite HPT in Hhalf.
      assert (16 * m1 * T8 <= 137438953471999992 * T8) by lia.
      assert (16 * m1 <= 137438953471999992)
        by (apply (Z.mul_le_mono_pos_r _ _ T8); assumption).
      lia.
    - assert (0 < 2 ^ (u + 36)) by (apply pow2_pos; lia).
      assert (2 ^ (u + 36) <= 2 ^ 2) by (apply Z.pow_le_mono_r; lia).
      change (2 ^ 2) with 4 in *.
      assert (0 <= m1).
      { apply Z.le_trans with (Zpos mz / P); [|lia]. apply Z.div_pos; lia. }
      apply Z.le_trans with (m1 * 4); [apply Z.mul_le_mono_nonneg_l; lia | lia]. }
  assert (HX : 0 < 2 ^ (- e1)) by (apply pow2_pos; lia).
  assert (HY : 0 < 2 ^ (e1 - u)) by (apply pow2_pos; lia).
  assert (HXY : 2 ^ (- u) = 2 ^ (- e1) * 2 ^ (e1 - u))
    by (rewrite <- Z.pow_add_r by lia; f_equal; lia).
  assert (HYZ : 2 ^ (e1 + 36) = 2 ^ (e1 - u) * 2 ^ (u + 36))
    by (rewrite <- Z.pow_add_r by lia; f_equal; lia).
  assert (HXZ : 2 ^ (- e1) * 2 ^ (e1 + 36) = 68719476736)
    by (rewrite <- Z.pow_add_r by lia; replace (- e1 + (e1 + 36)) with 36 by lia;
        reflexivity).
  assert (HZ36 : 0 < 2 ^ (e1 + 36)) by (apply pow2_pos; lia).
  assert (Hmlow : 100000 * 2 ^ (- e1) <= m).
  { rewrite HXY in HL. rewrite <- Hval in HL.
    apply (Z.mul_le_mono_pos_r _ _ (2 ^ (e1 - u))); [assumption|]. lia. }
  assert (Hmhigh : m < 1000000 * 2 ^ (- e1)).
  { apply (Z.mul_lt_mono_pos_r (2 ^ (e1 + 36))); [assumption|].
    replace (1000000 * 2 ^ (- e1) * 2 ^ (e1 + 36))
      with (1000000 * (2 ^ (- e1) * 2 ^ (e1 + 36))) by ring.
    rewrite HXZ. rewrite HYZ, Z.mul_assoc, Hval. lia. }
  destruct m as [|pm|pm]; try lia.
  exists pm, e1. split; [reflexivity|].
  rewrite Z.shiftl_div_pow2 by lia. split.
  - apply Z.div_le_lower_bound; lia.
  - assert (Zpos pm / 2 ^ (- e1) < 1000000)
      by (apply Z.div_lt_upper_bound; lia).
    lia.
Qed.

Lemma decimal_six_digits n :
  100000 <= n <= 999999 ->
  Num.decimal n =
  String (Num.digit (n / 100000))
    (String (Num.digit (n / 10000 mod 10))
       (String (Num.digit (n / 1000 mod 10))
          (String (Num.digit (n / 100 mod 10))
             (String (Num.digit (n / 10 mod 10))
                (String (Num.digit (n mod 10)) ""))))).
Proof.
  intros Hn. unfold Num.decimal.
  assert (Hlog : 16 <= Z.log2 n).
  { change 16 with (Z.log2 100000). apply Z.log2_le_mono. lia. }
  destruct (Z.to_nat (Z.log2 n)) as [|[|[|[|[|k]]]]] eqn:Hk; try lia.
  clear Hk Hlog. cbn [Num.decimal_aux].
  replace (n / 10 =? 0) with false
    by (symmetry; apply Z.eqb_neq; Z.div_mod_to_equations; lia).
  replace (n / 10 / 10 =? 0) with false
    by (symmetry; apply Z.eqb_neq; Z.div_mod_to_equations; lia).
  replace (n / 10 / 10 / 10 =? 0) with false
    by (symmetry; apply Z.eqb_neq; Z.div_mod_to_equations; lia).
  replace (n / 10 / 10 / 10 / 10 =? 0) with false
    by (symmetry; apply Z.eqb_neq; Z.div_mod_to_equations; lia).
  replace (n / 10 / 10 / 10 / 10 / 10 =? 0) with false
    by (symmetry; apply Z.eqb_neq; Z.div_mod_to_equations; lia).
  replace (n / 10 / 10 / 10 / 10 / 10 / 10 =? 0) with true
    by (symmetry; apply Z.eqb_eq; Z.div_mod_to_equations; lia).
  replace (n / 10 / 10 / 10 / 10 / 10 mod 10) with (n / 100000)
    by (Z.div_mod_to_equations; lia).
  replace (n / 10 / 10 / 10 / 10) with (n / 10000)
    by (Z.div_mod_to_equations; lia).
  replace (n / 10 / 10 / 10) with (n / 1000) by (Z.div_mod_to_equations; lia).
  replace (n / 10 / 10) with (n / 100) by (Z.div_mod_to_equations; lia).
  reflexivity.
Qed.

Lemma leading_digit_nonzero d : 1 <= d <= 9 -> Num.digit d <> "0"%char.
Proof.
  intros Hd.
  assert (H : d = 1 \/ d = 2 \/ d = 3 \/ d = 4 \/ d = 5 \/ d = 6 \/ d = 7 \/
              d = 8 \/ d = 9) by lia.
  repeat (destruct H as [->|H]; [discriminate|]). subst d. discriminate.
Qed.

(** The integer part of [100000 + Math.random() * 900000]. *)
Lemma floor_sum_bounds random :
  Num.is_random random = true ->
  exists n,
    100000 <= n <= 999999 /\
    Num.Math_floor (Num.add (Num.of_Z 100000) (Num.mul random (Num.of_Z 900000))) =
    Num.IntVal n.
Proof.
  intros Hr.
  destruct (mul_random_bound random Hr) as [[s ->]|(my & e & -> & Hy)].
  - exists 100000. split; [lia|]. rewrite of_Z_100000. now destruct s.
  - destruct (add_bound my e Hy) as (m & e' & -> & Hfl).
    exists (Z.shiftl (Zpos m) e'). split; [exact Hfl|reflexivity].
Qed.

(** C9. Whatever Number in [0, 1) [Math.random()] returns, the code
    [Math.floor(100000 + Math.random() * 900000).toString()] is the decimal
    string of an integer between 100000 and 999999: exactly six characters,
    the first of which is not the digit zero.  The arithmetic is the binary64
    one, rounding included. *)
Theorem otp_code_is_six_digits random :
  Num.is_random random = true ->
  exists n,
    100000 <= n <= 999999 /\
    otp_code_of random = Num.decimal n /\
    String.length (otp_code_of random) = 6%nat /\
    exists c rest, otp_code_of random = String c rest /\ c <> "0"%char.
Proof.
  intros Hr. destruct (floor_sum_bounds random Hr) as (n & Hn & Hfloor).
  exists n. split; [exact Hn|].
  assert (Hcode : otp_code_of random = Num.decimal n).
  { unfold otp_code_of. rewrite Hfloor. cbn [Num.toString].
    now replace (n <? 0) with false by (symmetry; apply Z.ltb_ge; lia). }
  rewrite Hcode, (decimal_six_digits n Hn). repeat split.
  eexists _, _. split; [reflexivity|].
  apply leading_digit_nonzero.
  split; [apply Z.div_le_lower_bound; lia|].
  assert (n / 100000 < 10) by (apply Z.div_lt_upper_bound; lia). lia.
Qed.

Lemma otp_code_witness :
  exists n,
    100000 <= n <= 999999 /\
    otp_code_of (S754_finite false (2 ^ 53 - 1) (-53)) = Num.decimal n /\
    String.length (otp_code_of (S754_finite false (2 ^ 53 - 1) (-53))) = 6%nat /\
    exists c rest,
      otp_code_of (S754_finite false (2 ^ 53 - 1) (-53)) = String c rest /\
      c <> "0"%char.
Proof.
  apply (otp_code_is_six_digits (S754_finite false (2 ^ 53 - 1) (-53))).
  vm_compute. reflexivity.
Defined.

(** The two ends of the range: the smallest and the largest value
    [Math.random()] can return. *)
Example otp_code_extremes :
  otp_code_of (S754_zero false) = "100000" /\
  otp_code_of (S754_finite false (2 ^ 53 - 1) (-53)) = "999999".
Proof. split; vm_compute; reflexivity. Qed.

(** * Further properties of the handlers *)

(** ** Registration and login *)

Lemma find_none_existsb {A} (f : A -> bool) (l : list A) :
  find f l = None <-> existsb f l = false.
Proof.
  induction l as [|a l IH]; cbn [find existsb]; [tauto|].
  destruct (f a); cbn [orb]; [split; discriminate|exact IH].
Qed.

Lemma find_app_none {A} (f : A -> bool) (l l' : list A) :
  find f l = None -> find f (l ++ l') = find f l'.
Proof.
  induction l as [|a l IH]; cbn [find app]; [reflexivity|].
  destruct (f a); [discriminate|exact IH].
Qed.

Lemma register_run `{Crypto} email password w :
  serve (post_register email password) w =
  match insert_user email (bcrypt_hash password) (db w) with
  | Some d => Ok tt (mkCtx (mkWorld d (outbox w) (upstream_log w)) ok_response)
  | None => Ok tt (mkCtx w already_used)
  end.
Proof.
  unfold serve, post_register, bind, db_query, gets. cbn [world].
  destruct (insert_user email (bcrypt_hash password) (db w)); reflexivity.
Qed.

Lemma register_new_user `{Crypto} email password w :
  get_user email (db w) = None ->
  after (post_register email password) w =
    mkWorld (set_users
               (fun t => t ++ [mkUser (next_id (map user_id t)) email
                                      (bcrypt_hash password) 0]) (db w))
            (outbox w) (upstream_log w).
Proof.
  intros Hnone. unfold after. rewrite register_run. unfold insert_user.
  apply find_none_existsb in Hnone. unfold get_user in Hnone.
  now rewrite Hnone.
Qed.

Lemma get_user_verified email d u :
  get_user email d = Some u ->
  get_user email (verify_users email d) =
    Some (mkUser (user_id u) (user_email u) (user_password u) 1).
Proof.
  unfold get_user, verify_users, set_users. cbn [users].
  induction (users d) as [|v l IH]; cbn [find map]; [discriminate|].
  destruct (user_for email v) eqn:Hv.
  - intros [= ->]. unfold user_for at 1. cbn [user_email].
    unfold user_for in Hv. now rewrite Hv.
  - rewrite Hv. exact IH.
Qed.

Lemma login_run `{Crypto} email password w :
  serve (post_login email password) w =
  Ok tt (mkCtx w
    match get_user email (db w) with
    | None => mkResponse 400 [] (JsonError "User not found") [] true
    | Some u =>
        if user_verified u =? 0 then not_verified
        else if bcrypt_compare password (user_password u)
             then mkResponse 200 []
                    (JsonToken (jwt_sign (user_id u) (user_email u))) [] true
             else wrong_password
    end).
Proof.
  unfold serve, post_login, bind, db_query, gets. cbn [world].
  destruct (get_user email (db w)) as [u|]; [|reflexivity].
  destruct (user_verified u =? 0); [reflexivity|].
  destruct (bcrypt_compare password (user_password u)); reflexivity.
Qed.

(** X2. The whole sign-up path.  For an email with no account: after
    registration the login is refused 403; after a code was issued and
    presented in time, login with the registered password returns the token
    signed for the new account's id and email, and a password that
    [bcrypt.compare] rejects is answered 400 "Wrong password". *)
Theorem signup_then_login `{Crypto}
    email password wrong random now delivered t w :
  get_user email (db w) = None ->
  t <= now + 5 * 60 * 1000 ->
  bcrypt_compare password (bcrypt_hash password) = true ->
  bcrypt_compare wrong (bcrypt_hash password) = false ->
  let w1 := after (post_register email password) w in
  let w2 := after (post_send_otp email random now delivered) w1 in
  let w3 := after (post_verify_otp email (otp_code_of random) t) w2 in
  reply (post_login email password) w1 = not_verified /\
  reply (post_login email password) w2 = not_verified /\
  reply (post_login email password) w3 =
    mkResponse 200 []
      (JsonToken (jwt_sign (next_id (map user_id (users (db w)))) email)) [] true /\
  reply (post_login email wrong) w3 = wrong_password.
Proof.
  intros Hnone Ht Hgood Hbad w1 w2 w3.
  assert (Hw1 : w1 = mkWorld (set_users
               (fun l => l ++ [mkUser (next_id (map user_id l)) email
                                      (bcrypt_hash password) 0]) (db w))
            (outbox w) (upstream_log w)) by now apply register_new_user.
  assert (Hu1 : get_user email (db w1) =
                Some (mkUser (next_id (map user_id (users (db w)))) email
                             (bcrypt_hash password) 0)).
  { rewrite Hw1. unfold get_user, set_users. cbn [db users].
    rewrite find_app_none by exact Hnone. cbn [find]. unfold user_for.
    cbn [user_email]. now rewrite String.eqb_refl. }
  assert (Hdb2 : db w2 = insert_otp email (otp_code_of random) (now + 5 * 60 * 1000)
                           (delete_otps email (db w1))) by apply send_otp_db.
  assert (Hu2 : get_user email (db w2) = get_user email (db w1))
    by (now rewrite Hdb2).
  assert (Hdb3 : db w3 = delete_otps email (verify_users email (db w2))).
  { unfold w3. rewrite verify_otp_db, Hdb2, issued_lookup, String.eqb_refl.
    cbn [otp_expires_at].
    now replace (now + 5 * 60 * 1000 <? t) with false
      by (symmetry; apply Z.ltb_ge; lia). }
  assert (Hu3 : get_user email (db w3) =
                Some (mkUser (next_id (map user_id (users (db w)))) email
                             (bcrypt_hash password) 1)).
  { rewrite Hdb3. change (get_user email (delete_otps email ?d))
      with (get_user email d).
    rewrite (get_user_verified email (db w2) _ (eq_trans Hu2 Hu1)).
    reflexivity. }
  unfold reply. rewrite !login_run. cbn [final_state res].
  rewrite Hu2, Hu1, Hu3. cbn [user_verified user_password user_id user_email].
  rewrite Hgood, Hbad. cbn. auto.
Qed.

Lemma signup_then_login_witness :
  reply (@post_login toy_crypto "c@example.com" "pw") carol_registered
    = not_verified /\
  reply (@post_login toy_crypto "c@example.com" "pw") carol_issued
    = not_verified /\
  reply (@post_login toy_crypto "c@example.com" "pw") carol_verified =
    mkResponse 200 []
      (JsonToken (@jwt_sign toy_crypto
                    (next_id (map user_id (users (db demo_world))))
                    "c@example.com")) [] true /\
  reply (@post_login toy_crypto "c@example.com" "nope") carol_verified
    = wrong_password.
Proof.
  apply (@signup_then_login toy_crypto "c@example.com" "pw" "nope"
           (S754_zero false) 1000 true 2000 demo_world);
    try reflexivity. lia.
Defined.

(** X3. The login handler hands out a token only for an existing account
    whose [verified] column is set and whose stored hash [bcrypt.compare]
    accepts for the submitted password; the token is the one signed for
    that account's id and email, and the login changes nothing. *)
Theorem login_token_sound `{Crypto} email password w token :
  body (reply (post_login email password) w) = JsonToken token ->
  exists u,
    get_user email (db w) = Some u /\
    user_email u = email /\
    user_verified u <> 0 /\
    bcrypt_compare password (user_password u) = true /\
    token = jwt_sign (user_id u) (user_email u) /\
    after (post_login email password) w = w.
Proof.
  unfold reply, after. rewrite login_run. cbn [final_state res world].
  destruct (get_user email (db w)) as [u|] eqn:Hu; [|discriminate].
  destruct (Z.eqb_spec (user_verified u) 0) as [|Hv]; [discriminate|].
  destruct (bcrypt_compare password (user_password u)) eqn:Hc; [|discriminate].
  intros [= <-]. exists u. repeat split; try assumption.
  apply find_some in Hu as [_ Hu]. now apply String.eqb_eq in Hu.
Qed.

Lemma login_token_witness :
  exists u,
    get_user "a@example.com" (db demo_world) = Some u /\
    user_email u = "a@example.com" /\
    user_verified u <> 0 /\
    @bcrypt_compare toy_crypto "secret" (user_password u) = true /\
    "jwt:a@example.com" = @jwt_sign toy_crypto (user_id u) (user_email u) /\
    after (@post_login toy_crypto "a@example.com" "secret") demo_world = demo_world.
Proof.
  apply (@login_token_sound toy_crypto "a@example.com" "secret" demo_world
           "jwt:a@example.com").
  reflexivity.
Defined.

(** ** One-time codes: expiry, unknown accounts, isolation *)

(** X4. A code presented after its expiry is answered with the
    invalid-code error and nothing changes: no account is verified and the
    expired row stays in the table until the next issuance or a successful
    verification for that email. *)
Theorem expired_code_rejected email random now delivered t w :
  now + 5 * 60 * 1000 < t ->
  serve (post_verify_otp email (otp_code_of random) t)
        (after (post_send_otp email random now delivered) w) =
  Ok tt (mkCtx (after (post_send_otp email random now delivered) w) invalid_otp).
Proof.
  intros Hlate. unfold serve, post_verify_otp, bind, db_query, gets.
  cbn [world]. rewrite send_otp_db, issued_lookup, String.eqb_refl.
  cbn [otp_expires_at].
  now replace (now + 5 * 60 * 1000 <? t) with true
    by (symmetry; apply Z.ltb_lt; lia).
Qed.

Lemma expired_code_witness :
  serve (post_verify_otp "a@example.com"
           (otp_code_of (S754_finite false (2 ^ 52) (-53))) 301001)
        (after (post_send_otp "a@example.com" (S754_finite false (2 ^ 52) (-53))
                              1000 true) otp_account) =
  Ok tt (mkCtx (after (post_send_otp "a@example.com"
                         (S754_finite false (2 ^ 52) (-53)) 1000 true)
                      otp_account) invalid_otp).
Proof.
  apply (expired_code_rejected "a@example.com"
           (S754_finite false (2 ^ 52) (-53)) 1000 true 301001 otp_account).
  lia.
Defined.

Lemma verify_users_absent email d :
  get_user email d = None -> verify_users email d = d.
Proof.
  unfold get_user, verify_users, set_users. destruct d as [us os cs ms].
  cbn [users otps chats messages]. intros Hnone. f_equal.
  induction us as [|u us IH]; [reflexivity|].
  cbn [find] in Hnone. cbn [map].
  destruct (user_for email u); [discriminate|]. now rewrite IH.
Qed.

(** X5. The verify handler does not look for the account: for an email
    nobody registered, the issued code presented in time is accepted with
    200 all the same, the code is consumed, and the table of users is left
    as it was. *)
Theorem verify_without_account email random now delivered t w :
  get_user email (db w) = None ->
  t <= now + 5 * 60 * 1000 ->
  reply (post_verify_otp email (otp_code_of random) t)
        (after (post_send_otp email random now delivered) w) = ok_response /\
  users (db (after (post_verify_otp email (otp_code_of random) t)
                   (after (post_send_otp email random now delivered) w))) =
    users (db w) /\
  filter (otp_for email)
    (otps (db (after (post_verify_otp email (otp_code_of random) t)
                 (after (post_send_otp email random now delivered) w)))) = [].
Proof.
  intros Hnone Ht.
  set (w1 := after (post_send_otp email random now delivered) w).
  assert (Hdb1 : db w1 = insert_otp email (otp_code_of random)
                           (now + 5 * 60 * 1000) (delete_otps email (db w)))
    by apply send_otp_db.
  assert (Hfresh : (now + 5 * 60 * 1000 <? t) = false) by (apply Z.ltb_ge; lia).
  assert (Hhit : get_otp email (otp_code_of random) (db w1) =
                 Some (mkOtp email (otp_code_of random) (now + 5 * 60 * 1000)))
    by (rewrite Hdb1, issued_lookup; now rewrite String.eqb_refl).
  split; [|split].
  - unfold reply, serve, post_verify_otp, bind, db_query, gets. cbn [world].
    rewrite Hhit. cbn [otp_expires_at]. now rewrite Hfresh.
  - rewrite verify_otp_db, Hhit. cbn [otp_expires_at]. rewrite Hfresh.
    rewrite verify_users_absent by (now rewrite Hdb1).
    now rewrite Hdb1.
  - rewrite verify_otp_db, Hhit. cbn [otp_expires_at]. rewrite Hfresh.
    unfold delete_otps, set_otps. cbn [otps]. apply filter_deleted.
Qed.

Lemma verify_without_account_witness :
  reply (post_verify_otp "nobody@example.com" (otp_code_of (S754_zero false)) 2000)
        (after (post_send_otp "nobody@example.com" (S754_zero false) 1000 true)
               demo_world) = ok_response /\
  users (db (after (post_verify_otp "nobody@example.com"
                      (otp_code_of (S754_zero false)) 2000)
                   (after (post_send_otp "nobody@example.com" (S754_zero false)
                                         1000 true) demo_world))) =
    users (db demo_world) /\
  filter (otp_for "nobody@example.com")
    (otps (db (after (post_verify_otp "nobody@example.com"
                        (otp_code_of (S754_zero false)) 2000)
                 (after (post_send_otp "nobody@example.com" (S754_zero false)
                                       1000 true) demo_world)))) = [].
Proof.
  apply (verify_without_account "nobody@example.com" (S754_zero false) 1000 true
           2000 demo_world); [reflexivity|lia].
Defined.

Lemma verify_users_columns email d :
  map user_id (users (verify_users email d)) = map user_id (users d) /\
  map user_email (users (verify_users email d)) = map user_email (users d) /\
  map user_password (users (verify_users email d)) = map user_password (users d) /\
  filter (fun u => negb (user_for email u)) (users (verify_users email d)) =
    filter (fun u => negb (user_for email u)) (users d).
Proof.
  unfold verify_users, set_users. cbn [users].
  induction (users d) as [|u l (IH1 & IH2 & IH3 & IH4)]; [repeat split|].
  cbn [map filter]. rewrite IH1, IH2, IH3.
  destruct (user_for email u) eqn:Hu.
  - cbn [user_id user_email user_password]. unfold user_for at 1.
    cbn [user_email]. unfold user_for in Hu. rewrite Hu. cbn [negb].
    now rewrite IH4.
  - rewrite Hu. cbn [negb]. now rewrite IH4.
Qed.

(** X6. Whatever email, code and time it is given, the verify handler
    changes no account's id, email or password hash, leaves the rows of
    every other email exactly as they were, and never touches the chats,
    the messages or the mail outbox. *)
Theorem verify_touches_one_email_only email code now w :
  map user_id (users (db (after (post_verify_otp email code now) w))) =
    map user_id (users (db w)) /\
  map user_email (users (db (after (post_verify_otp email code now) w))) =
    map user_email (users (db w)) /\
  map user_password (users (db (after (post_verify_otp email code now) w))) =
    map user_password (users (db w)) /\
  filter (fun u => negb (user_for email u))
         (users (db (after (post_verify_otp email code now) w))) =
    filter (fun u => negb (user_for email u)) (users (db w)) /\
  chats (db (after (post_verify_otp email code now) w)) = chats (db w) /\
  messages (db (after (post_verify_otp email code now) w)) = messages (db w) /\
  outbox (after (post_verify_otp email code now) w) = outbox w.
Proof.
  assert (Hout : outbox (after (post_verify_otp email code now) w) = outbox w).
  { unfold after, serve, post_verify_otp, bind, db_query, gets. cbn [world].
    destruct (get_otp email code (db w)) as [o|]; [|reflexivity].
    destruct (otp_expires_at o <? now); reflexivity. }
  rewrite verify_otp_db.
  destruct (get_otp email code (db w)) as [o|]; [|now repeat split].
  destruct (otp_expires_at o <? now); [now repeat split|].
  destruct (verify_users_columns email (db w)) as (H1 & H2 & H3 & H4).
  cbn [delete_otps set_otps users chats messages].
  repeat split; assumption || reflexivity.
Qed.

Lemma filter_other_email email email' code expires (l : list OtpRow) :
  email' <> email ->
  filter (otp_for email')
         (filter (fun o => negb (otp_for email o)) l ++ [mkOtp email code expires]) =
  filter (otp_for email') l.
Proof.
  intros Hne. rewrite filter_app. cbn [filter].
  replace (otp_for email' (mkOtp email code expires)) with false
    by (symmetry; apply String.eqb_neq; cbn; congruence).
  rewrite app_nil_r.
  induction l as [|o l IH]; [reflexivity|].
  cbn [filter].
  destruct (otp_for email o) eqn:H1; destruct (otp_for email' o) eqn:H2;
    cbn [negb filter]; try rewrite H2; try now rewrite IH.
  apply String.eqb_eq in H1, H2. congruence.
Qed.

Lemma find_other_email email email' code code' expires (l : list OtpRow) :
  email' <> email ->
  find (otp_matches email' code')
       (filter (fun o => negb (otp_for email o)) l ++ [mkOtp email code expires]) =
  find (otp_matches email' code') l.
Proof.
  intros Hne. induction l as [|o l IH].
  - cbn. unfold otp_matches. cbn.
    now replace (String.eqb email email') with false
      by (symmetry; apply String.eqb_neq; congruence).
  - cbn [filter find]. unfold otp_for at 1, otp_matches at 2.
    destruct (String.eqb_spec (otp_email o) email) as [He|He]; cbn [negb].
    + replace (String.eqb (otp_email o) email') with false
        by (symmetry; apply String.eqb_neq; congruence).
      cbn [andb]. exact IH.
    + cbn [app find]. unfold otp_matches at 1.
      destruct (String.eqb (otp_email o) email' && String.eqb (otp_code o) code');
        [reflexivity|exact IH].
Qed.

(** X7. Issuing a code for one email leaves the codes of every other
    email as they were: the same rows, and every code of another email
    verifies or fails as before; users, chats and messages are untouched. *)
Theorem send_otp_isolated email email' code' random now delivered w :
  email' <> email ->
  filter (otp_for email')
         (otps (db (after (post_send_otp email random now delivered) w))) =
    filter (otp_for email') (otps (db w)) /\
  get_otp email' code' (db (after (post_send_otp email random now delivered) w)) =
    get_otp email' code' (db w) /\
  users (db (after (post_send_otp email random now delivered) w)) = users (db w) /\
  chats (db (after (post_send_otp email random now delivered) w)) = chats (db w) /\
  messages (db (after (post_send_otp email random now delivered) w)) =
    messages (db w).
Proof.
  intros Hne. rewrite send_otp_db.
  unfold get_otp, insert_otp, delete_otps, set_otps.
  cbn [otps users chats messages].
  rewrite filter_other_email, find_other_email by exact Hne. now repeat split.
Qed.

Lemma send_otp_isolated_witness :
  filter (otp_for "b@example.com")
         (otps (db (after (post_send_otp "a@example.com" (S754_zero false) 5000 true)
                          otp_world))) =
    filter (otp_for "b@example.com") (otps (db otp_world)) /\
  get_otp "b@example.com" "100000"
          (db (after (post_send_otp "a@example.com" (S754_zero false) 5000 true)
                     otp_world)) =
    get_otp "b@example.com" "100000" (db otp_world) /\
  users (db (after (post_send_otp "a@example.com" (S754_zero false) 5000 true)
                   otp_world)) = users (db otp_world) /\
  chats (db (after (post_send_otp "a@example.com" (S754_zero false) 5000 true)
                   otp_world)) = chats (db otp_world) /\
  messages (db (after (post_send_otp "a@example.com" (S754_zero false) 5000 true)
                      otp_world)) = messages (db otp_world).
Proof.
  apply (send_otp_isolated "a@example.com" "b@example.com" "100000"
           (S754_zero false) 5000 true otp_world).
  discriminate.
Defined.

(** X8. The send-otp handler stores the new code before it mails it.  When
    the transport delivers, the outbox gains exactly one mail, addressed to
    the email and quoting the code now stored for it, and the answer is 200;
    when the transport rejects, the handler throws without answering, with
    the new code already stored in place of the old one. *)
Theorem send_otp_stores_then_mails email random now w :
  let code := otp_code_of random in
  let d := insert_otp email code (now + 5 * 60 * 1000) (delete_otps email (db w)) in
  get_otp email code d = Some (mkOtp email code (now + 5 * 60 * 1000)) /\
  serve (post_send_otp email random now true) w =
    Ok tt (mkCtx (mkWorld d
                    (outbox w ++
                     [mkMail email "Kode Verifikasi Blue Orca"
                        (String.append "Kode OTP kamu: "
                           (String.append code
                              (String (ascii_of_nat 10) "Berlaku 5 menit.")))])
                    (upstream_log w))
                 ok_response) /\
  serve (post_send_otp email random now false) w =
    Throw MailError (mkCtx (mkWorld d (outbox w) (upstream_log w)) fresh_response).
Proof.
  cbv zeta. split; [|split; reflexivity].
  rewrite issued_lookup. now rewrite String.eqb_refl.
Qed.

(** ** The relay: what it leaves alone, and what the next turn replays *)

(** The world a chat turn on an existing session leaves behind. *)
Lemma relay_after provider u chatId message w :
  chat_exists chatId (db w) = true ->
  after (post_chat_stream provider (Some u) chatId message) w =
  mkWorld
    (mkDB (users (db w)) (otps (db w)) (chats (db w))
       (messages (db w) ++
        mkMessage chatId "user" message ::
        match failure (provider (select_messages chatId (db w) ++
                                 [("user", message)])) with
        | None =>
            [mkMessage chatId "assistant"
               (joined (fragments
                  (provider (select_messages chatId (db w) ++
                             [("user", message)]))))]
        | Some _ => []
        end))
    (outbox w)
    (upstream_log w ++ [select_messages chatId (db w) ++ [("user", message)]]).
Proof.
  intros Hex. unfold after.
  pose proof (relay_run provider u chatId message w Hex) as Hrun.
  cbv zeta in Hrun. rewrite Hrun.
  destruct (failure _); cbn [final_state world]; try rewrite <- app_assoc;
    reflexivity.
Qed.

(** Whatever the request, the relay only appends messages of its own
    session. *)
Lemma relay_frame provider user chatId message w :
  exists l,
    db (after (post_chat_stream provider user chatId message) w) =
      mkDB (users (db w)) (otps (db w)) (chats (db w)) (messages (db w) ++ l) /\
    outbox (after (post_chat_stream provider user chatId message) w) = outbox w /\
    Forall (fun m => msg_chat_id m = chatId) l.
Proof.
  destruct user as [u|].
  - destruct (chat_exists chatId (db w)) eqn:Hex.
    + rewrite relay_after by exact Hex. eexists. cbn [db outbox].
      split; [reflexivity|split; [reflexivity|]].
      constructor; [reflexivity|]. destruct (failure _); repeat constructor.
    + exists []. unfold after.
      assert (Hins : insert_message chatId "user" message (db w) = None)
        by (unfold insert_message; now rewrite Hex).
      unfold serve, post_chat_stream, auth, setHeader, db_insert_message,
        modify, bind. simpl. rewrite Hins. cbn. rewrite app_nil_r.
      split; [now destruct (db w)|auto].
  - exists []. cbn. rewrite app_nil_r. split; [now destruct (db w)|auto].
Qed.

Lemma select_other_session chatId other (l ms : list MessageRow) :
  other <> chatId ->
  Forall (fun m => msg_chat_id m = chatId) l ->
  filter (message_of other) (ms ++ l) = filter (message_of other) ms.
Proof.
  intros Hne Hl. rewrite filter_app.
  replace (filter (message_of other) l) with (@nil MessageRow);
    [apply app_nil_r|].
  induction Hl as [|m l Hm _ IH]; [reflexivity|].
  cbn [filter]. unfold message_of at 1. rewrite Hm.
  now replace (chatId =? other) with false by (symmetry; apply Z.eqb_neq; lia).
Qed.

(** X9. A chat turn, whoever sends it and however the upstream behaves,
    changes nothing but the messages of its own session: users, codes, chats
    and the mail outbox stay as they were, and every other session reads
    back exactly as before. *)
Theorem relay_touches_own_session_only provider user chatId message other w :
  other <> chatId ->
  users (db (after (post_chat_stream provider user chatId message) w)) =
    users (db w) /\
  otps (db (after (post_chat_stream provider user chatId message) w)) =
    otps (db w) /\
  chats (db (after (post_chat_stream provider user chatId message) w)) =
    chats (db w) /\
  outbox (after (post_chat_stream provider user chatId message) w) = outbox w /\
  select_messages other
    (db (after (post_chat_stream provider user chatId message) w)) =
    select_messages other (db w).
Proof.
  intros Hne.
  destruct (relay_frame provider user chatId message w) as (l & Hdb & Hout & Hl).
  rewrite Hdb, Hout. cbn [users otps chats]. repeat split.
  unfold select_messages. cbn [messages].
  now rewrite (select_other_session chatId other l _ Hne Hl).
Qed.

Lemma relay_touches_own_session_witness :
  users (db (after (post_chat_stream demo_provider (Some alice) 1 "how are you")
                   two_sessions)) = users (db two_sessions) /\
  otps (db (after (post_chat_stream demo_provider (Some alice) 1 "how are you")
                  two_sessions)) = otps (db two_sessions) /\
  chats (db (after (post_chat_stream demo_provider (Some alice) 1 "how are you")
                   two_sessions)) = chats (db two_sessions) /\
  outbox (after (post_chat_stream demo_provider (Some alice) 1 "how are you")
                two_sessions) = outbox two_sessions /\
  select_messages 2
    (db (after (post_chat_stream demo_provider (Some alice) 1 "how are you")
               two_sessions)) = select_messages 2 (db two_sessions).
Proof.
  apply (relay_touches_own_session_only demo_provider (Some alice) 1
           "how are you" 2 two_sessions).
  discriminate.
Defined.

Lemma select_after_relay provider u chatId message w :
  chat_exists chatId (db w) = true ->
  select_messages chatId
    (db (after (post_chat_stream provider (Some u) chatId message) w)) =
  (select_messages chatId (db w) ++ [("user", message)]) ++
  match failure (provider (select_messages chatId (db w) ++
                           [("user", message)])) with
  | None =>
      [("assistant",
        joined (fragments (provider (select_messages chatId (db w) ++
                                     [("user", message)]))))]
  | Some _ => []
  end.
Proof.
  intros Hex. rewrite relay_after by exact Hex.
  unfold select_messages. cbn [db messages].
  rewrite filter_app, map_app. cbn [filter]. unfold message_of at 2.
  cbn [msg_chat_id]. rewrite Z.eqb_refl. cbn [map].
  rewrite <- app_assoc. cbn [app]. f_equal. f_equal.
  destruct (failure _); [reflexivity|].
  cbn [filter]. unfold message_of. cbn [msg_chat_id]. now rewrite Z.eqb_refl.
Qed.

Lemma chat_exists_after_relay provider u chatId message w :
  chat_exists chatId (db w) = true ->
  chat_exists chatId
    (db (after (post_chat_stream provider (Some u) chatId message) w)) = true.
Proof. intros Hex. now rewrite relay_after by exact Hex. Qed.

(** X10. A turn whose upstream completed is replayed in full by the next
    turn on the session: the history the second turn hands to the upstream
    is the first turn's history, then the assistant reply made of the first
    turn's fragments, then the new user message. *)
Theorem next_turn_replays_reply
    provider provider' u u' chatId message message' fs w :
  chat_exists chatId (db w) = true ->
  provider (select_messages chatId (db w) ++ [("user", message)]) =
    mkUpstream fs None ->
  upstream_log
    (after (post_chat_stream provider' (Some u') chatId message')
       (after (post_chat_stream provider (Some u) chatId message) w)) =
  upstream_log w ++
  [select_messages chatId (db w) ++ [("user", message)];
   select_messages chatId (db w) ++
   [("user", message); ("assistant", joined fs); ("user", message')]].
Proof.
  intros Hex Hup.
  rewrite (relay_after provider' u' chatId message' _
             (chat_exists_after_relay provider u chatId message w Hex)).
  cbn [upstream_log]. rewrite select_after_relay by exact Hex.
  rewrite Hup. cbn [failure fragments].
  rewrite relay_after by exact Hex. cbn [upstream_log].
  rewrite <- !app_assoc. reflexivity.
Qed.

Lemma next_turn_replays_reply_witness :
  upstream_log
    (after (post_chat_stream failing_provider (Some bob) 1 "and you?")
       (after (post_chat_stream demo_provider (Some alice) 1 "how are you")
              demo_world)) =
  upstream_log demo_world ++
  [select_messages 1 (db demo_world) ++ [("user", "how are you")];
   select_messages 1 (db demo_world) ++
   [("user", "how are you"); ("assistant", joined ["I'm "; "fine, thanks"]);
    ("user", "and you?")]].
Proof.
  apply (next_turn_replays_reply demo_provider failing_provider alice bob 1
           "how are you" "and you?" ["I'm "; "fine, thanks"] demo_world);
    reflexivity.
Defined.

(** X11. A turn whose upstream failed leaves a gap: the next turn on the
    session hands the upstream the failed turn's user message directly
    followed by the new one, with none of the fragments the client had
    already received. *)
Theorem next_turn_after_failure
    provider provider' u u' chatId message message' fs detail w :
  chat_exists chatId (db w) = true ->
  provider (select_messages chatId (db w) ++ [("user", message)]) =
    mkUpstream fs (Some detail) ->
  chunks (reply (post_chat_stream provider (Some u) chatId message) w) = fs /\
  upstream_log
    (after (post_chat_stream provider' (Some u') chatId message')
       (after (post_chat_stream provider (Some u) chatId message) w)) =
  upstream_log w ++
  [select_messages chatId (db w) ++ [("user", message)];
   select_messages chatId (db w) ++ [("user", message); ("user", message')]].
Proof.
  intros Hex Hup. split.
  - unfold reply. pose proof (relay_run provider u chatId message w Hex) as Hrun.
    cbv zeta in Hrun. rewrite Hrun, Hup. reflexivity.
  - rewrite (relay_after provider' u' chatId message' _
               (chat_exists_after_relay provider u chatId message w Hex)).
    cbn [upstream_log]. rewrite select_after_relay by exact Hex.
    rewrite Hup. cbn [failure fragments].
    rewrite relay_after by exact Hex. cbn [upstream_log].
    rewrite app_nil_r, <- !app_assoc. reflexivity.
Qed.

Lemma next_turn_after_failure_witness :
  chunks (reply (post_chat_stream failing_provider (Some alice) 1 "how are you")
                demo_world) = ["I'm "; "fi"] /\
  upstream_log
    (after (post_chat_stream demo_provider (Some alice) 1 "hello?")
       (after (post_chat_stream failing_provider (Some alice) 1 "how are you")
              demo_world)) =
  upstream_log demo_world ++
  [select_messages 1 (db demo_world) ++ [("user", "how are you")];
   select_messages 1 (db demo_world) ++
   [("user", "how are you"); ("user", "hello?")]].
Proof.
  apply (next_turn_after_failure failing_provider demo_provider alice alice 1
           "how are you" "hello?" ["I'm "; "fi"] "connection reset" demo_world);
    reflexivity.
Defined.

(** X12. While the upstream writes, the accumulator and the wire stay in
    step: started from a frame where [full] is the concatenation of the
    chunks already sent, any further sequence of writes through the
    replaced [res.write] succeeds, sends exactly those chunks after the
    earlier ones, and leaves [full] equal to the concatenation of all the
    chunks sent. *)
Theorem tee_tracks_the_wire (fs : list string) (f : Frame) :
  full f = joined (chunks (res (ctx f))) ->
  exists f',
    write_all (tee_write res_write) fs f = Ok tt f' /\
    chunks (res (ctx f')) = chunks (res (ctx f)) ++ fs /\
    full f' = joined (chunks (res (ctx f'))) /\
    world (ctx f') = world (ctx f).
Proof.
  intros Hinv. rewrite write_all_tee. eexists. split; [reflexivity|].
  cbn [ctx res on_res chunks full world]. repeat split.
  now rewrite joined_app, Hinv.
Qed.

Lemma tee_tracks_the_wire_witness :
  exists f',
    write_all (tee_write res_write) ["fine, "; "thanks"] midstream_frame = Ok tt f' /\
    chunks (res (ctx f')) = chunks (res (ctx midstream_frame)) ++ ["fine, "; "thanks"] /\
    full f' = joined (chunks (res (ctx f'))) /\
    world (ctx f') = world (ctx midstream_frame).
Proof.
  apply (tee_tracks_the_wire ["fine, "; "thanks"] midstream_frame).
  reflexivity.
Defined.

(** ** Sessions: creation *)

Lemma fold_max_ge (ids : list Z) x : In x ids -> x <= fold_right Z.max 0 ids.
Proof.
  induction ids as [|y ids IH]; cbn [In fold_right]; [tauto|].
  intros [->|Hin]; [lia|]. specialize (IH Hin). lia.
Qed.

Lemma next_id_not_in (ids : list Z) : ~ In (next_id ids) ids.
Proof.
  intros Hin. apply fold_max_ge in Hin. unfold next_id in Hin. lia.
Qed.

Lemma next_id_positive (ids : list Z) : 0 < next_id ids.
Proof.
  unfold next_id.
  assert (0 <= fold_right Z.max 0 ids)
    by (induction ids; cbn [fold_right]; lia).
  lia.
Qed.

Lemma chat_exists_in chatId d :
  chat_exists chatId d = true <-> In chatId (map chat_id (chats d)).
Proof.
  unfold chat_exists. rewrite existsb_exists, in_map_iff. split.
  - intros (c & Hin & Heq). exists c. apply Z.eqb_eq in Heq. auto.
  - intros (c & Heq & Hin). exists c. split; [exact Hin|now apply Z.eqb_eq].
Qed.

Lemma post_chat_run u w :
  serve (post_chat (Some u)) w =
  Ok tt (mkCtx
           (mkWorld (set_chats
                       (fun t => t ++ [mkChat (next_id (map chat_id (chats (db w))))
                                              (caller_id u) "New Chat"]) (db w))
                    (outbox w) (upstream_log w))
           (mkResponse 200 [] (JsonChatId (next_id (map chat_id (chats (db w)))))
                       [] true)).
Proof. reflexivity. Qed.

(** X13. [POST /api/chat] answers with an id no existing session has, and
    afterwards that id references a session owned by the caller and titled
    "New Chat"; the sessions that existed are kept, and users, codes and
    messages are untouched. *)
Theorem create_chat_gives_fresh_session u w :
  exists id w',
    serve (post_chat (Some u)) w =
      Ok tt (mkCtx w' (mkResponse 200 [] (JsonChatId id) [] true)) /\
    chat_exists id (db w) = false /\
    chats (db w') = chats (db w) ++ [mkChat id (caller_id u) "New Chat"] /\
    chat_exists id (db w') = true /\
    users (db w') = users (db w) /\
    otps (db w') = otps (db w) /\
    messages (db w') = messages (db w).
Proof.
  eexists _, _. split; [apply post_chat_run|].
  cbn [db set_chats chats users otps messages]. repeat split.
  - destruct (chat_exists _ (db w)) eqn:Hex; [|reflexivity].
    apply chat_exists_in in Hex. now apply next_id_not_in in Hex.
  - apply chat_exists_in. unfold set_chats. cbn [chats].
    rewrite map_app, in_app_iff. right. now left.
Qed.

(** X14. The first turn on a session just created.  When no stored message
    carries the id the create handler hands out, a turn on that id whose
    upstream completes is accepted, and reading the session back gives
    exactly the user message followed by the assistant reply. *)
Theorem first_turn_on_new_chat provider u message fs w :
  select_messages (next_id (map chat_id (chats (db w)))) (db w) = [] ->
  provider [("user", message)] = mkUpstream fs None ->
  body (reply (post_chat (Some u)) w) =
    JsonChatId (next_id (map chat_id (chats (db w)))) /\
  reply (get_messages (Some u) (next_id (map chat_id (chats (db w)))))
        (after (post_chat_stream provider (Some u)
                  (next_id (map chat_id (chats (db w)))) message)
               (after (post_chat (Some u)) w)) =
    mkResponse 200 []
      (JsonRows [("user", message); ("assistant", joined fs)]) [] true.
Proof.
  intros Hempty Hup. split; [reflexivity|].
  set (id := next_id (map chat_id (chats (db w)))) in *.
  set (w1 := after (post_chat (Some u)) w).
  assert (Hex : chat_exists id (db w1) = true).
  { apply chat_exists_in. unfold w1, after. rewrite post_chat_run.
    cbn [final_state world db set_chats chats].
    rewrite map_app, in_app_iff. right. now left. }
  assert (Hsel : select_messages id (db w1) = []) by exact Hempty.
  unfold reply. rewrite get_messages_run. cbn [final_state res].
  rewrite select_after_relay by exact Hex.
  rewrite Hsel. cbn [app]. rewrite Hup. reflexivity.
Qed.

Lemma first_turn_on_new_chat_witness :
  body (reply (post_chat (Some bob)) demo_world) =
    JsonChatId (next_id (map chat_id (chats (db demo_world)))) /\
  reply (get_messages (Some bob) (next_id (map chat_id (chats (db demo_world)))))
        (after (post_chat_stream demo_provider (Some bob)
                  (next_id (map chat_id (chats (db demo_world)))) "how are you")
               (after (post_chat (Some bob)) demo_world)) =
    mkResponse 200 []
      (JsonRows [("user", "how are you");
                 ("assistant", joined ["I'm "; "fine, thanks"])]) [] true.
Proof.
  apply (first_turn_on_new_chat demo_provider bob "how are you"
           ["I'm "; "fine, thanks"] demo_world); reflexivity.
Defined.

(** ** What no sequence of requests undoes *)

(** The tables after one request. *)
Lemma step_db `{Crypto} r w :
  db (step r w) =
  match r with
  | Register email password =>
      match insert_user email (bcrypt_hash password) (db w) with
      | Some d => d
      | None => db w
      end
  | SendOtp email random now _ =>
      insert_otp email (otp_code_of random) (now + 5 * 60 * 1000)
                 (delete_otps email (db w))
  | VerifyOtp email code now =>
      match get_otp email code (db w) with
      | None => db w
      | Some o => if otp_expires_at o <? now then db w
                  else delete_otps email (verify_users email (db w))
      end
  | CreateChat (Some u) => snd (insert_chat (caller_id u) "New Chat" (db w))
  | ChatStream provider user chatId message =>
      db (after (post_chat_stream provider user chatId message) w)
  | _ => db w
  end.
Proof.
  destruct r as [email password | email random now delivered
                | email code now | email password | user
                | provider user chatId message | user chatId | user];
    unfold step, handle.
  - fold (after (post_register email password) w). unfold after.
    rewrite register_run. now destruct (insert_user _ _ _).
  - fold (after (post_send_otp email random now delivered) w).
    apply send_otp_db.
  - fold (after (post_verify_otp email code now) w). apply verify_otp_db.
  - fold (after (post_login email password) w). unfold after.
    now rewrite login_run.
  - now destruct user.
  - reflexivity.
  - now destruct user.
  - now destruct user.
Qed.

Lemma step_users `{Crypto} r w :
  users (db (step r w)) = users (db w) \/
  (exists email password,
     r = Register email password /\
     existsb (user_for email) (users (db w)) = false /\
     users (db (step r w)) =
       users (db w) ++ [mkUser (next_id (map user_id (users (db w)))) email
                               (bcrypt_hash password) 0]) \/
  (exists email code now o,
     r = VerifyOtp email code now /\
     get_otp email code (db w) = Some o /\
     (otp_expires_at o <? now) = false /\
     users (db (step r w)) = users (verify_users email (db w))).
Proof.
  rewrite step_db. destruct r as [email password | email random now delivered
                | email code now | email password | user
                | provider user chatId message | user chatId | user].
  - unfold insert_user.
    destruct (existsb (user_for email) (users (db w))) eqn:Hex; [now left|].
    right. left. exists email, password. auto.
  - now left.
  - destruct (get_otp email code (db w)) as [o|] eqn:Ho; [|now left].
    destruct (otp_expires_at o <? now) eqn:Hexp; [now left|].
    right. right. exists email, code, now, o. auto.
  - now left.
  - left. now destruct user.
  - left. destruct (relay_frame provider user chatId message w) as (l & -> & _).
    reflexivity.
  - now left.
  - now left.
Qed.

Lemma step_chats_messages `{Crypto} r w :
  exists lc lm,
    chats (db (step r w)) = chats (db w) ++ lc /\
    messages (db (step r w)) = messages (db w) ++ lm /\
    (lc = [] \/
     exists owner, lc = [mkChat (next_id (map chat_id (chats (db w)))) owner
                                "New Chat"]).
Proof.
  rewrite step_db. destruct r as [email password | email random now delivered
                | email code now | email password | user
                | provider user chatId message | user chatId | user].
  - exists [], []. rewrite !app_nil_r. unfold insert_user.
    destruct (existsb _ _); auto.
  - exists [], []. rewrite !app_nil_r. auto.
  - exists [], []. rewrite !app_nil_r.
    destruct (get_otp email code (db w)) as [o|]; [|auto].
    destruct (otp_expires_at o <? now); auto.
  - exists [], []. rewrite !app_nil_r. auto.
  - destruct user as [u|].
    + exists [mkChat (next_id (map chat_id (chats (db w)))) (caller_id u)
                     "New Chat"], [].
      rewrite app_nil_r. cbn. eauto.
    + exists [], []. rewrite !app_nil_r. auto.
  - destruct (relay_frame provider user chatId message w) as (l & -> & _).
    exists [], l. rewrite app_nil_r. auto.
  - exists [], []. rewrite !app_nil_r. auto.
  - exists [], []. rewrite !app_nil_r. auto.
Qed.

(** X15. The stored conversation is append-only: whatever sequence of
    requests is served, the messages and the sessions that were stored are
    still there, unchanged and in the same order, at the front of the
    tables. *)
Theorem run_keeps_messages_and_chats `{Crypto} rs w :
  exists lc lm,
    chats (db (run rs w)) = chats (db w) ++ lc /\
    messages (db (run rs w)) = messages (db w) ++ lm.
Proof.
  revert w. induction rs as [|r rs IH]; intros w; cbn [run].
  - exists [], []. now rewrite !app_nil_r.
  - destruct (IH (step r w)) as (lc & lm & Hc & Hm).
    destruct (step_chats_messages r w) as (lc0 & lm0 & Hc0 & Hm0 & _).
    exists (lc0 ++ lc), (lm0 ++ lm).
    rewrite Hc, Hm, Hc0, Hm0, !app_assoc. auto.
Qed.

Lemma step_keeps_account `{Crypto} r w u :
  In u (users (db w)) ->
  exists u',
    In u' (users (db (step r w))) /\ same_account u u' /\
    (user_verified u <> 0 -> user_verified u' <> 0).
Proof.
  intros Hin.
  destruct (step_users r w) as [Heq|[(e & p & _ & _ & Heq)|(e & c & n & o & _ & _ & _ & Heq)]];
    rewrite Heq.
  - exists u. unfold same_account. auto.
  - exists u. unfold same_account. rewrite in_app_iff. auto.
  - unfold verify_users, set_users. cbn [users].
    exists (if user_for e u
            then mkUser (user_id u) (user_email u) (user_password u) 1 else u).
    split.
    { apply in_map_iff. exists u. auto. }
    destruct (user_for e u); unfold same_account; cbn; repeat split; auto.
    discriminate.
Qed.

(** X16. No request deletes an account, changes its id, email or password
    hash, or takes its verification back: an account present before any
    sequence of requests is present after it, and verified if it was. *)
Theorem run_keeps_accounts `{Crypto} rs w u :
  In u (users (db w)) ->
  exists u',
    In u' (users (db (run rs w))) /\ same_account u u' /\
    (user_verified u <> 0 -> user_verified u' <> 0).
Proof.
  revert w u. induction rs as [|r rs IH]; intros w u Hin; cbn [run].
  - exists u. unfold same_account. auto.
  - destruct (step_keeps_account r w u Hin) as (u1 & Hin1 & (Hi & He & Hp) & Hv1).
    destruct (IH (step r w) u1 Hin1) as (u2 & Hin2 & (Hi2 & He2 & Hp2) & Hv2).
    exists u2. unfold same_account. repeat split; try congruence. auto.
Qed.

Lemma run_keeps_accounts_witness :
  exists u',
    In u' (users (db (@run toy_crypto
                        [Register "a@example.com" "other";
                         SendOtp "a@example.com" (S754_zero false) 1000 false;
                         VerifyOtp "a@example.com" "100000" 2000;
                         Login "a@example.com" "nope"]
                        demo_world))) /\
    same_account (mkUser 7 "a@example.com" "$2b$secret" 1) u' /\
    (user_verified (mkUser 7 "a@example.com" "$2b$secret" 1) <> 0 ->
     user_verified u' <> 0).
Proof.
  apply (@run_keeps_accounts toy_crypto
           [Register "a@example.com" "other";
            SendOtp "a@example.com" (S754_zero false) 1000 false;
            VerifyOtp "a@example.com" "100000" 2000;
            Login "a@example.com" "nope"]
           demo_world (mkUser 7 "a@example.com" "$2b$secret" 1)).
  simpl. auto.
Defined.

Lemma verified_emails_snoc (l : list UserRow) id email hash d :
  users d = l ++ [mkUser id email hash 0] ->
  verified_emails d =
  map user_email (filter (fun u => negb (user_verified u =? 0)) l).
Proof.
  intros Hd. unfold verified_emails. rewrite Hd, filter_app.
  cbn. now rewrite app_nil_r.
Qed.

Lemma verified_after_marking email e d :
  In e (verified_emails (verify_users email d)) ->
  In e (verified_emails d) \/ e = email.
Proof.
  unfold verified_emails, verify_users, set_users. cbn [users].
  induction (users d) as [|u l IH]; cbn [map filter]; [tauto|].
  destruct (user_for email u) eqn:Hu.
  - cbn [user_verified Z.eqb negb map In user_email].
    intros [Heq|Hin].
    + right. apply String.eqb_eq in Hu. congruence.
    + destruct (IH Hin) as [Hold|Heq]; [|now right].
      left. destruct (negb (user_verified u =? 0)); [now right|exact Hold].
  - destruct (negb (user_verified u =? 0)); cbn [map In].
    + intros [Heq|Hin]; [left; now left|].
      destruct (IH Hin) as [Hold|Heq]; [left; now right|now right].
    + exact IH.
Qed.

(** X18. An account becomes verified in one way only: if an email counts
    as verified after a request and did not before, the request was a
    verify-otp for that very email, with a code stored for it that had not
    expired at the time of the request.  Registration, login, the chat
    endpoints and the issuance of a code never verify anyone. *)
Theorem verified_only_by_valid_code `{Crypto} r w e :
  In e (verified_emails (db (step r w))) ->
  ~ In e (verified_emails (db w)) ->
  exists code now o,
    r = VerifyOtp e code now /\
    get_otp e code (db w) = Some o /\
    otp_email o = e /\ otp_code o = code /\
    now <= otp_expires_at o.
Proof.
  intros Hafter Hbefore.
  destruct (step_users r w)
    as [Heq|[(em & p & _ & _ & Heq)|(em & c & n & o & Hr & Ho & Hexp & Heq)]].
  - exfalso. apply Hbefore. unfold verified_emails in *. now rewrite <- Heq.
  - exfalso. apply Hbefore.
    rewrite (verified_emails_snoc _ _ _ _ _ Heq) in Hafter. exact Hafter.
  - assert (Hin : In e (verified_emails (verify_users em (db w))))
      by (unfold verified_emails in *; now rewrite <- Heq).
    destruct (verified_after_marking em e (db w) Hin) as [Hold| ->];
      [contradiction|].
    exists c, n, o. split; [exact Hr|split; [exact Ho|]].
    apply find_some in Ho as [_ Hm]. unfold otp_matches in Hm.
    apply andb_prop in Hm as [Hm1 Hm2].
    apply String.eqb_eq in Hm1, Hm2. apply Z.ltb_ge in Hexp. auto.
Qed.

Lemma verified_only_by_valid_code_witness :
  exists code now o,
    VerifyOtp "a@example.com" "550000" 301000 =
      VerifyOtp "a@example.com" code now /\
    get_otp "a@example.com" code (db otp_issued) = Some o /\
    otp_email o = "a@example.com" /\ otp_code o = code /\
    now <= otp_expires_at o.
Proof.
  apply (@verified_only_by_valid_code toy_crypto
           (VerifyOtp "a@example.com" "550000" 301000) otp_issued
           "a@example.com").
  - vm_compute. auto.
  - vm_compute. tauto.
Defined.

(** X19. What a request may do to the outside, served alone: a mail is
    sent only by a send-otp whose transport delivers, one mail, to the
    requested email and quoting the generated code; the upstream client is
    called only by a chat turn, and by one turn at most once. *)
Theorem external_effects_of_a_request `{Crypto} r w :
  (outbox (step r w) = outbox w \/
   exists email random now,
     r = SendOtp email random now true /\
     outbox (step r w) = outbox w ++ [otp_mail email (otp_code_of random)]) /\
  (upstream_log (step r w) = upstream_log w \/
   exists provider user chatId message history,
     r = ChatStream provider user chatId message /\
     upstream_log (step r w) = upstream_log w ++ [history]).
Proof.
  destruct r as [email password | email random now delivered
                | email code now | email password | user
                | provider user chatId message | user chatId | user];
    unfold step, handle.
  - fold (after (post_register email password) w). unfold after.
    rewrite register_run. destruct (insert_user _ _ _); auto.
  - destruct delivered; [|auto]. split; [|auto].
    right. exists email, random, now. auto.
  - fold (after (post_verify_otp email code now) w).
    unfold after, serve, post_verify_otp, bind, db_query, gets. cbn [world].
    destruct (get_otp email code (db w)) as [o|]; [|auto].
    destruct (otp_expires_at o <? now); auto.
  - fold (after (post_login email password) w). unfold after.
    rewrite login_run. auto.
  - destruct user; auto.
  - fold (after (post_chat_stream provider user chatId message) w).
    destruct (relay_frame provider user chatId message w) as (l & _ & Hout & _).
    split; [now left|].
    destruct user as [u|]; [|now left].
    destruct (chat_exists chatId (db w)) eqn:Hex.
    + right. exists provider, (Some u), chatId, message.
      rewrite relay_after by exact Hex. cbn [upstream_log]. eauto.
    + left. unfold after.
      assert (Hins : insert_message chatId "user" message (db w) = None)
        by (unfold insert_message; now rewrite Hex).
      unfold serve, post_chat_stream, auth, setHeader, db_insert_message,
        modify, bind. simpl. now rewrite Hins.
  - destruct user; auto.
  - destruct user; auto.
Qed.

Lemma step_wrong_guess `{Crypto} email guess t w :
  get_otp email guess (db w) = None ->
  step (VerifyOtp email guess t) w = w.
Proof.
  intros Hnone. unfold step, handle.
  now rewrite verify_otp_rejects by exact Hnone.
Qed.

(** X20. The verify handler counts no attempts: any number of wrong codes
    submitted for an email, at any times, leaves the store exactly as the
    issuance left it, so the issued code is still there to be verified. *)
Theorem wrong_guesses_change_nothing `{Crypto}
    email random now delivered (guesses : list (string * Z)) w :
  Forall (fun g => fst g <> otp_code_of random) guesses ->
  run (map (fun g => VerifyOtp email (fst g) (snd g)) guesses)
      (after (post_send_otp email random now delivered) w) =
    after (post_send_otp email random now delivered) w /\
  get_otp email (otp_code_of random)
    (db (run (map (fun g => VerifyOtp email (fst g) (snd g)) guesses)
             (after (post_send_otp email random now delivered) w))) =
    Some (mkOtp email (otp_code_of random) (now + 5 * 60 * 1000)).
Proof.
  intros Hwrong.
  assert (Hrun : run (map (fun g => VerifyOtp email (fst g) (snd g)) guesses)
                     (after (post_send_otp email random now delivered) w) =
                 after (post_send_otp email random now delivered) w).
  { induction Hwrong as [|g guesses Hg _ IH]; [reflexivity|].
    cbn [map run]. rewrite step_wrong_guess; [exact IH|].
    rewrite send_otp_db, issued_lookup.
    destruct (String.eqb_spec (otp_code_of random) (fst g)); congruence. }
  rewrite Hrun. split; [reflexivity|].
  rewrite send_otp_db, issued_lookup. now rewrite String.eqb_refl.
Qed.

Lemma wrong_guesses_witness :
  @run toy_crypto
    (map (fun g => VerifyOtp "a@example.com" (fst g) (snd g))
         [("000000", 2000); ("123456", 2001); ("999999", 2002)])
    (after (post_send_otp "a@example.com" (S754_zero false) 1000 true) demo_world) =
    after (post_send_otp "a@example.com" (S754_zero false) 1000 true) demo_world /\
  get_otp "a@example.com" (otp_code_of (S754_zero false))
    (db (@run toy_crypto
           (map (fun g => VerifyOtp "a@example.com" (fst g) (snd g))
                [("000000", 2000); ("123456", 2001); ("999999", 2002)])
           (after (post_send_otp "a@example.com" (S754_zero false) 1000 true)
                  demo_world))) =
    Some (mkOtp "a@example.com" (otp_code_of (S754_zero false))
                (1000 + 5 * 60 * 1000)).
Proof.
  apply (@wrong_guesses_change_nothing toy_crypto "a@example.com"
           (S754_zero false) 1000 true
           [("000000", 2000); ("123456", 2001); ("999999", 2002)] demo_world).
  repeat constructor; vm_compute; discriminate.
Defined.

(** * Requests in flight together *)

(** ** The async handlers are the handlers *)

(** The segment that awaits [streamChat]. *)
Lemma stream_segment provider history c :
  with_full (streamChat provider (tee_write res_write) history ;; gets full) c =
  match failure (provider history) with
  | None =>
      Ok (joined (fragments (provider history)))
         (mkCtx (mkWorld (db (world c)) (outbox (world c))
                         (upstream_log (world c) ++ [history]))
                (mkResponse (status (res c)) (headers (res c)) (body (res c))
                            (chunks (res c) ++ fragments (provider history))
                            (ended (res c))))
  | Some detail =>
      Throw (UpstreamError detail)
         (mkCtx (mkWorld (db (world c)) (outbox (world c))
                         (upstream_log (world c) ++ [history]))
                (mkResponse (status (res c)) (headers (res c)) (body (res c))
                            (chunks (res c) ++ fragments (provider history))
                            (ended (res c))))
  end.
Proof.
  unfold with_full, streamChat, log_upstream, lift, gets, modify, bind.
  simpl. rewrite write_all_tee. simpl.
  destruct (failure (provider history)); reflexivity.
Qed.

(** Served alone, each async handler does what the handler does: cutting
    at the awaits changes nothing when nothing runs in between. *)
Lemma run_alone_handle `{Crypto} r c : run_alone (handle_async r) c = handle r c.
Proof.
  destruct r as [email password | email random now delivered
                | email code now | email password | user
                | provider user chatId message | user chatId | user];
    cbn [handle_async handle].
  - unfold post_register_async, post_register. cbn [run_alone].
    unfold bind, ret, db_query, gets.
    destruct (insert_user email (bcrypt_hash password) (db (world c)));
      reflexivity.
  - unfold post_send_otp_async, post_send_otp. cbn [run_alone].
    destruct delivered; reflexivity.
  - unfold post_verify_otp_async, post_verify_otp. cbn [run_alone].
    unfold bind, db_query, gets.
    destruct (get_otp email code (db (world c))) as [o|]; [|reflexivity].
    destruct (otp_expires_at o <? now); reflexivity.
  - unfold post_login_async, post_login. cbn [run_alone].
    unfold bind, db_query, gets.
    destruct (get_user email (db (world c))) as [u|]; [|reflexivity].
    destruct (user_verified u =? 0); [reflexivity|].
    cbn [run_alone]. unfold bind, ret.
    destruct (bcrypt_compare password (user_password u)); reflexivity.
  - destruct user; reflexivity.
  - destruct user as [u|]; [|reflexivity].
    unfold post_chat_stream_async, post_chat_stream, auth_async, auth.
    cbn [run_alone].
    unfold with_full, streamChat, setHeader, db_insert_message, db_query,
      log_upstream, lift, gets, modify, bind.
    simpl.
    destruct (insert_message chatId "user" message (db (world c))) as [d|];
      [|reflexivity].
    simpl. rewrite !write_all_tee. simpl.
    destruct (failure _); [reflexivity|].
    unfold res_end, modify, ret. simpl.
    destruct (insert_message chatId "assistant" _ d); reflexivity.
  - destruct user; reflexivity.
  - destruct user; reflexivity.
Qed.

(** ** Schedules *)

Lemma interleave_app s1 : forall s2 pool w,
  interleave (s1 ++ s2) pool w =
  interleave s2 (fst (interleave s1 pool w)) (snd (interleave s1 pool w)).
Proof.
  induction s1 as [|i s1 IH]; intros s2 pool w; [reflexivity|].
  cbn [app interleave]. destruct (nth_error pool i); apply IH.
Qed.

Lemma nth_set_nth_same {A} (l : list A) : forall i a t,
  nth_error l i = Some t -> nth_error (set_nth i a l) i = Some a.
Proof.
  induction l as [|x l IH]; intros [|i] a t H; cbn in *; try discriminate;
    [reflexivity|eauto].
Qed.

Lemma nth_set_nth_other {A} (l : list A) : forall i j a,
  i <> j -> nth_error (set_nth i a l) j = nth_error l j.
Proof.
  induction l as [|x l IH]; intros [|i] [|j] a Hne; cbn; try reflexivity;
    [contradiction|apply IH; congruence].
Qed.

Lemma set_nth_Forall {A} (P : A -> Prop) (l : list A) : forall i a,
  Forall P l -> P a -> Forall P (set_nth i a l).
Proof.
  induction l as [|x l IH]; intros [|i] a Hl Ha; cbn; inversion Hl; subst;
    try constructor; auto.
Qed.

(** A task the schedule does not name stays as it is. *)
Lemma interleave_untouched i s : forall pool w,
  ~ In i s ->
  nth_error (fst (interleave s pool w)) i = nth_error pool i.
Proof.
  induction s as [|j s IH]; intros pool w Hnot; [reflexivity|].
  cbn [interleave]. cbn [In] in Hnot.
  destruct (nth_error pool j) as [t|].
  - rewrite IH by tauto. apply nth_set_nth_other. intros ->. tauto.
  - apply IH. tauto.
Qed.

(** ** Every handler only appends to the messages *)

Lemma advance_append_only t w :
  AppendOnly (pending t) ->
  AppendOnly (pending (fst (advance t w))) /\
  exists l, messages (db (snd (advance t w))) = messages (db w) ++ l.
Proof.
  unfold advance. destruct (pending t) as [|A segment k] eqn:Hp; intros Hao.
  - cbn. rewrite Hp. split; [exact I|]. exists []. now rewrite app_nil_r.
  - destruct Hao as [Hseg Hk].
    specialize (Hseg (mkCtx w (response t))). cbn [world] in Hseg.
    destruct (segment (mkCtx w (response t))) as [a c|e c];
      cbn [fst snd pending final_state] in *.
    + split; [apply Hk|exact Hseg].
    + split; [exact I|exact Hseg].
Qed.

Lemma interleave_append_only s : forall pool w,
  Forall (fun t => AppendOnly (pending t)) pool ->
  Forall (fun t => AppendOnly (pending t)) (fst (interleave s pool w)) /\
  exists l, messages (db (snd (interleave s pool w))) = messages (db w) ++ l.
Proof.
  induction s as [|i s IH]; intros pool w Hpool.
  - split; [exact Hpool|]. exists []. now rewrite app_nil_r.
  - cbn [interleave]. destruct (nth_error pool i) as [t|] eqn:Hi; [|now apply IH].
    assert (Ht : AppendOnly (pending t)).
    { rewrite Forall_forall in Hpool. apply Hpool.
      now apply nth_error_In with i. }
    destruct (advance_append_only t w Ht) as [Ht' [l1 Hl1]].
    destruct (IH (set_nth i (fst (advance t w)) pool) (snd (advance t w))
                 (set_nth_Forall _ _ _ _ Hpool Ht')) as [Hpool' [l2 Hl2]].
    split; [exact Hpool'|]. exists (l1 ++ l2).
    now rewrite Hl2, Hl1, app_assoc.
Qed.

Ltac unchanged :=
  exists (@nil MessageRow); rewrite app_nil_r; reflexivity.

Ltac append_only_steps :=
  cbn [AppendOnly];
  repeat match goal with
         | |- _ /\ _ => split
         | |- forall _, _ => intro
         | |- True => exact I
         end.

Lemma handle_async_append_only `{Crypto} r : AppendOnly (handle_async r).
Proof.
  destruct r as [email password | email random now delivered
                | email code now | email password | user
                | provider user chatId message | user chatId | user];
    cbn [handle_async].
  - unfold post_register_async. append_only_steps; [unchanged|].
    unfold bind, db_query, gets, insert_user. cbn [world].
    destruct (existsb _ _); unchanged.
  - unfold post_send_otp_async. append_only_steps; try unchanged.
    destruct delivered; unchanged.
  - unfold post_verify_otp_async. cbn [AppendOnly].
    split; [intros c; unchanged|]. intros [o|].
    + destruct (otp_expires_at o <? now); append_only_steps; unchanged.
    + append_only_steps. unchanged.
  - unfold post_login_async. cbn [AppendOnly].
    split; [intros c; unchanged|]. intros [u|].
    + destruct (user_verified u =? 0); append_only_steps; try unchanged.
      match goal with valid : bool |- _ => destruct valid end; unchanged.
    + append_only_steps. unchanged.
  - destruct user; cbn [post_chat_async auth_async];
      append_only_steps; unchanged.
  - destruct user as [u|]; cbn [post_chat_stream_async auth_async];
      [|append_only_steps; unchanged].
    append_only_steps.
    + unfold bind, setHeader, modify, db_insert_message, insert_message.
      cbn [world db on_res].
      destruct (chat_exists chatId _); [|unchanged].
      eexists. reflexivity.
    + unchanged.
    + rewrite stream_segment.
      destruct (failure _); unchanged.
    + unfold bind, db_insert_message, insert_message, res_end, modify.
      destruct (chat_exists chatId _); [|unchanged].
      eexists. reflexivity.
  - destruct user; cbn [get_messages_async auth_async];
      append_only_steps; unchanged.
  - destruct user; cbn [get_chats_async auth_async];
      append_only_steps; unchanged.
Qed.

Lemma in_flight_append_only `{Crypto} rs :
  Forall (fun t => AppendOnly (pending t)) (in_flight rs).
Proof.
  unfold in_flight. apply Forall_forall. intros t Hin.
  apply in_map_iff in Hin as (r & <- & _). apply handle_async_append_only.
Qed.

(** ** A chat turn among other requests *)

Lemma filter_no_row_of_session chatId (l : list MessageRow) :
  Forall (fun m => msg_chat_id m <> chatId) l ->
  filter (fun m => msg_chat_id m =? chatId) l = [].
Proof.
  induction 1 as [|m l Hm _ IH]; [reflexivity|].
  cbn [filter]. apply Z.eqb_neq in Hm. now rewrite Hm.
Qed.

Lemma relay_first_step provider u chatId message w :
  chat_exists chatId (db w) = true ->
  advance (spawn (post_chat_stream_async provider (Some u) chatId message)) w =
  (mkTask (relay_inserted provider chatId)
          (mkResponse 200 stream_headers NoBody [] false) None,
   mkWorld (set_messages (fun t => t ++ [mkMessage chatId "user" message]) (db w))
           (outbox w) (upstream_log w)).
Proof.
  intros Hex. unfold advance, spawn, post_chat_stream_async, auth_async.
  cbn [pending response].
  unfold bind, setHeader, modify, db_insert_message. simpl.
  now rewrite (insert_message_ok _ _ _ _ Hex).
Qed.

Lemma relay_second_step provider chatId r w :
  advance (mkTask (relay_inserted provider chatId) r None) w =
  (mkTask (relay_loaded provider chatId (select_messages chatId (db w))) r None,
   w).
Proof. reflexivity. Qed.

Lemma relay_third_step provider chatId history r w :
  upstream_log
    (snd (advance (mkTask (relay_loaded provider chatId history) r None) w)) =
    upstream_log w ++ [history] /\
  db (snd (advance (mkTask (relay_loaded provider chatId history) r None) w)) =
    db w.
Proof.
  unfold advance. cbn [pending response relay_loaded].
  rewrite stream_segment. cbn [world db outbox upstream_log].
  destruct (failure _); cbn [fst snd world upstream_log db]; now split.
Qed.

Lemma relay_load_and_stream provider chatId r pool i later w :
  nth_error pool i = Some (mkTask (relay_inserted provider chatId) r None) ->
  ~ In i later ->
  upstream_log (snd (interleave (i :: later ++ [i]) pool w)) =
    upstream_log (snd (interleave (i :: later) pool w)) ++
    [select_messages chatId (db w)].
Proof.
  intros Hi Hlater.
  change (i :: later ++ [i]) with ((i :: later) ++ [i]).
  rewrite interleave_app.
  assert (Hloaded :
    nth_error (fst (interleave (i :: later) pool w)) i =
    Some (mkTask (relay_loaded provider chatId (select_messages chatId (db w)))
                 r None)).
  { cbn [interleave]. rewrite Hi, relay_second_step. cbn [fst snd].
    rewrite interleave_untouched by exact Hlater.
    exact (nth_set_nth_same _ _ _ _ Hi). }
  cbn [interleave] in *. rewrite Hi in *. rewrite relay_second_step in *.
  cbn [fst snd] in *. rewrite Hloaded.
  apply relay_third_step.
Qed.

(** C3, as stated, fails: two turns race on one session; the first inserts
    its message, the second inserts its own, and only then does the first
    load the history and call the upstream.  The history the first turn
    sends ends with the other turn's message, not its own. *)
Lemma racing_turn_history_ends_with_other_message :
  upstream_log (snd racing_turns) =
    [[("user", "hi"); ("user", "from A"); ("user", "from B")]] /\
  last [("user", "hi"); ("user", "from A"); ("user", "from B")] ("", "")
    <> ("user", "from A") /\
  map pending (fst racing_turns) =
    [Await (db_insert_message 1 "assistant" "I'm fine, thanks" ;; res_end)
           (fun _ => Finished);
     relay_inserted demo_provider 1].
Proof. repeat split. discriminate. Qed.

(** C3, amended.  Among any requests in flight and under any schedule
    ([before], [between] and [later] are the steps other requests take
    before the turn starts, between its INSERT and its SELECT, and between
    its SELECT and its call of the upstream client), a chat turn on an
    existing session inserts its user message before it loads the history,
    so the history it hands to the upstream client always contains the turn
    just submitted: it is the session's messages from before the insert,
    then that turn, then whatever other requests inserted into the session
    between the insert and the load.  When nothing was inserted into the
    session in between, as when the turn is served alone, the turn just
    submitted is the last element. *)
Theorem relay_history_under_interleaving `{Crypto}
    (rs : list Request) i before between later w provider u chatId message :
  nth_error rs i = Some (ChatStream provider (Some u) chatId message) ->
  ~ In i before ->
  ~ In i between ->
  ~ In i later ->
  chat_exists chatId (db (snd (interleave before (in_flight rs) w))) = true ->
  exists inserted history,
    messages (db (snd (interleave (before ++ i :: between) (in_flight rs) w))) =
      messages (db (snd (interleave before (in_flight rs) w))) ++
      mkMessage chatId "user" message :: inserted /\
    upstream_log
      (snd (interleave (before ++ i :: between ++ i :: later ++ [i])
              (in_flight rs) w)) =
      upstream_log
        (snd (interleave (before ++ i :: between ++ i :: later)
                (in_flight rs) w)) ++
      [history] /\
    history =
      select_messages chatId (db (snd (interleave before (in_flight rs) w))) ++
      ("user", message) ::
      map (fun m => (msg_role m, msg_content m))
          (filter (fun m => msg_chat_id m =? chatId) inserted) /\
    In ("user", message) history /\
    (Forall (fun m => msg_chat_id m <> chatId) inserted ->
     last history ("", "") = ("user", message)).
Proof.
  intros Hi Hbefore Hbetween Hlater Hex.
  set (start := interleave before (in_flight rs) w) in *.
  assert (Hpool1 : Forall (fun t => AppendOnly (pending t)) (fst start))
    by (apply interleave_append_only, in_flight_append_only).
  assert (Htask : nth_error (fst start) i =
                  Some (spawn (post_chat_stream_async provider (Some u) chatId
                                 message))).
  { unfold start. rewrite interleave_untouched by exact Hbefore.
    unfold in_flight. now rewrite nth_error_map, Hi. }
  assert (Hsplit : interleave (before ++ i :: between) (in_flight rs) w =
                   interleave between
                     (set_nth i (mkTask (relay_inserted provider chatId)
                                   (mkResponse 200 stream_headers NoBody [] false)
                                   None) (fst start))
                     (mkWorld (set_messages
                                 (fun t => t ++ [mkMessage chatId "user" message])
                                 (db (snd start)))
                              (outbox (snd start)) (upstream_log (snd start)))).
  { rewrite interleave_app. fold start. cbn [interleave].
    rewrite Htask, (relay_first_step _ _ _ _ _ Hex). reflexivity. }
  set (pool2 := set_nth i (mkTask (relay_inserted provider chatId)
                             (mkResponse 200 stream_headers NoBody [] false) None)
                        (fst start)) in *.
  set (w2 := mkWorld (set_messages
                        (fun t => t ++ [mkMessage chatId "user" message])
                        (db (snd start)))
                     (outbox (snd start)) (upstream_log (snd start))) in *.
  assert (Hpool2 : Forall (fun t => AppendOnly (pending t)) pool2).
  { apply set_nth_Forall; [exact Hpool1|].
    assert (Hspawn : AppendOnly (pending (spawn (post_chat_stream_async
                                             provider (Some u) chatId message)))).
    { pose proof (proj1 (Forall_forall _ _) Hpool1) as Hall.
      apply (Hall _ (nth_error_In _ _ Htask)). }
    destruct (advance_append_only _ (snd start) Hspawn) as [Hnext _].
    now rewrite (relay_first_step _ _ _ _ _ Hex) in Hnext. }
  destruct (interleave_append_only between pool2 w2 Hpool2) as [_ [inserted Hins]].
  assert (Hkept : nth_error (fst (interleave between pool2 w2)) i =
                  Some (mkTask (relay_inserted provider chatId)
                          (mkResponse 200 stream_headers NoBody [] false) None)).
  { rewrite interleave_untouched by exact Hbetween.
    unfold pool2. exact (nth_set_nth_same _ _ _ _ Htask). }
  pose proof (relay_load_and_stream provider chatId _ _ i later
                (snd (interleave between pool2 w2)) Hkept Hlater) as Hlog.
  assert (Hhist : select_messages chatId (db (snd (interleave between pool2 w2))) =
    select_messages chatId (db (snd start)) ++
    ("user", message) ::
    map (fun m => (msg_role m, msg_content m))
        (filter (fun m => msg_chat_id m =? chatId) inserted)).
  { unfold select_messages. rewrite Hins. unfold w2. cbn [db set_messages messages].
    rewrite <- app_assoc, filter_app, map_app. cbn [app filter].
    unfold message_of at 2. cbn [msg_chat_id]. rewrite Z.eqb_refl.
    reflexivity. }
  exists inserted, (select_messages chatId (db (snd (interleave between pool2 w2)))).
  split; [|split; [|split; [|split]]].
  - rewrite Hsplit, Hins. unfold w2. cbn [db set_messages messages].
    now rewrite <- app_assoc.
  - replace (before ++ i :: between ++ i :: later ++ [i])
      with ((before ++ i :: between) ++ i :: later ++ [i])
      by (rewrite <- app_assoc; reflexivity).
    replace (before ++ i :: between ++ i :: later)
      with ((before ++ i :: between) ++ i :: later)
      by (rewrite <- app_assoc; reflexivity).
    rewrite !(interleave_app (before ++ i :: between)), Hsplit. exact Hlog.
  - exact Hhist.
  - rewrite Hhist, in_app_iff. right. now left.
  - intros Hnone. rewrite Hhist.
    replace (filter (fun m => msg_chat_id m =? chatId) inserted)
      with (@nil MessageRow).
    + apply last_last.
    + symmetry. now apply filter_no_row_of_session.
Qed.

(** The turn of request 0 of [demo_requests], with a send-otp step before
    it, the other turn's insert between its own insert and its load, and
    another send-otp step before it calls the upstream client. *)
Lemma relay_history_interleaving_witness :
  exists inserted history,
    messages (db (snd (interleave ([2%nat] ++ 0%nat :: [2%nat; 1%nat])
                         (@in_flight toy_crypto demo_requests) demo_world))) =
      messages (db (snd (interleave [2%nat] (@in_flight toy_crypto demo_requests)
                           demo_world))) ++
      mkMessage 1 "user" "from A" :: inserted /\
    upstream_log
      (snd (interleave
              ([2%nat] ++ 0%nat :: [2%nat; 1%nat] ++ 0%nat :: [2%nat] ++ [0%nat])
              (@in_flight toy_crypto demo_requests) demo_world)) =
      upstream_log
        (snd (interleave
                ([2%nat] ++ 0%nat :: [2%nat; 1%nat] ++ 0%nat :: [2%nat])
                (@in_flight toy_crypto demo_requests) demo_world)) ++
      [history] /\
    history =
      select_messages 1
        (db (snd (interleave [2%nat] (@in_flight toy_crypto demo_requests)
                    demo_world))) ++
      ("user", "from A") ::
      map (fun m => (msg_role m, msg_content m))
          (filter (fun m => msg_chat_id m =? 1) inserted) /\
    In ("user", "from A") history /\
    (Forall (fun m => msg_chat_id m <> 1) inserted ->
     last history ("", "") = ("user", "from A")).
Proof.
  apply (@relay_history_under_interleaving toy_crypto demo_requests 0%nat
           [2%nat] [2%nat; 1%nat] [2%nat] demo_world demo_provider alice 1
           "from A").
  - reflexivity.
  - intros [E|[]]; discriminate.
  - intros [E|[E|[]]]; discriminate.
  - intros [E|[]]; discriminate.
  - reflexivity.
Defined.

(** The same schedule, evaluated: the history sent for "from A" ends with
    the other turn's message. *)
Example racing_schedule_history :
  upstream_log
    (snd (interleave [2; 0; 2; 1; 0; 2; 0]%nat
            (@in_flight toy_crypto demo_requests) demo_world)) =
  [[("user", "hi"); ("user", "from A"); ("user", "from B")]].
Proof. reflexivity. Qed.

(** ** Two issuances for one email in flight together *)


(** ** The list of sessions *)

(** X21. [GET /api/chats] answers 200 with the sessions whose owner is the
    caller: a session is in the answer exactly when it is stored with the
    caller's id as owner, so no other account's session is listed.  The
    request changes nothing, and without a resolved identity it is answered
    401. *)
Theorem chats_listed_are_the_callers_own (u : Caller) w :
  serve (get_chats (Some u)) w =
    Ok tt (mkCtx w (mkResponse 200 []
                      (JsonChats (select_chats (caller_id u) (db w))) [] true)) /\
  (forall c, In c (select_chats (caller_id u) (db w)) <->
             In c (chats (db w)) /\ chat_user_id c = caller_id u) /\
  List.length (select_chats (caller_id u) (db w)) =
    List.length (filter (fun c => chat_user_id c =? caller_id u) (chats (db w))) /\
  serve (get_chats None) w =
    Ok tt (mkCtx w (mkResponse 401 [] (JsonError "Unauthorized") [] true)).
Proof.
  split; [reflexivity|]. split; [|split; [|reflexivity]].
  - intros c. unfold select_chats. rewrite <- in_rev, filter_In, Z.eqb_eq.
    reflexivity.
  - unfold select_chats. apply length_rev.
Qed.

(** ** An issuance among other requests *)



















(** Along that schedule: one code for a@example.com at the start, none
    after the issuance's DELETE, the new one after its INSERT, none after
    the verification's DELETE. *)
Example issuance_schedule_codes :
  map (fun s => codes_for "a@example.com"
                  (snd (interleave s (@in_flight toy_crypto otp_requests)
                          otp_issued)))
      [[]; [1; 0]; [1; 0; 2; 0]; [1; 0; 2; 0; 1; 3; 1]]%nat =
  [[mkOtp "a@example.com" "550000" 301000];
   [];
   [mkOtp "a@example.com" "100000" 303000];
   []].
Proof. reflexivity. Qed.

(** ** Further properties of requests in flight together *)

(** X22. The stored conversation is append-only under every interleaving:
    whatever requests are in flight and in whatever order their awaits are
    served, the messages that were stored are still there, unchanged and in
    the same order, at the front of the table. *)
Theorem interleaved_requests_only_append `{Crypto} (rs : list Request) s w :
  exists l,
    messages (db (snd (interleave s (in_flight rs) w))) = messages (db w) ++ l.
Proof.
  exact (proj2 (interleave_append_only s (in_flight rs) w
                  (in_flight_append_only rs))).
Qed.

(** X23. A code is single-use only when verifications do not overlap: the
    verify handler awaits its SELECT and its DELETE separately, so two
    verifications of one stored, unexpired code that both run their SELECT
    before either runs its DELETE are both answered 200; the email's codes
    are gone afterwards. *)
Theorem racing_verifications_both_accepted email code t1 t2 o w :
  get_otp email code (db w) = Some o ->
  (otp_expires_at o <? t1) = false ->
  (otp_expires_at o <? t2) = false ->
  map (fun t => (pending t, response t, rejected t))
      (fst (interleave [0; 1; 0; 1; 0; 1]%nat
              [spawn (post_verify_otp_async email code t1);
               spawn (post_verify_otp_async email code t2)] w)) =
    [(Finished, ok_response, None); (Finished, ok_response, None)] /\
  codes_for email
    (snd (interleave [0; 1; 0; 1; 0; 1]%nat
            [spawn (post_verify_otp_async email code t1);
             spawn (post_verify_otp_async email code t2)] w)) = [].
Proof.
  intros Hfound Hlive1 Hlive2.
  cbn [interleave nth_error set_nth fst snd].
  unfold advance, spawn, post_verify_otp_async.
  cbn [pending response]. unfold db_query, gets. cbn [world res fst snd].
  rewrite Hfound, Hlive1, Hlive2.
  cbn [interleave nth_error set_nth fst snd pending response].
  split; [reflexivity|].
  unfold codes_for, bind, db_run, modify, json, on_db, on_res, delete_otps,
    verify_users, set_otps, set_users.
  cbn [world db otps fst snd res]. apply filter_deleted.
Qed.

Lemma racing_verifications_witness :
  map (fun t => (pending t, response t, rejected t))
      (fst (interleave [0; 1; 0; 1; 0; 1]%nat
              [spawn (post_verify_otp_async "a@example.com" "550000" 2000);
               spawn (post_verify_otp_async "a@example.com" "550000" 2001)]
              otp_issued)) =
    [(Finished, ok_response, None); (Finished, ok_response, None)] /\
  codes_for "a@example.com"
    (snd (interleave [0; 1; 0; 1; 0; 1]%nat
            [spawn (post_verify_otp_async "a@example.com" "550000" 2000);
             spawn (post_verify_otp_async "a@example.com" "550000" 2001)]
            otp_issued)) = [].
Proof.
  apply (racing_verifications_both_accepted "a@example.com" "550000" 2000 2001
           (mkOtp "a@example.com" "550000" 301000) otp_issued); reflexivity.
Defined.

(** ** A completed turn among other requests *)

Ltac session_kept := intros; assumption.

Ltac keeps_sessions_steps :=
  cbn [KeepsSessions];
  repeat match goal with
         | |- _ /\ _ => split
         | |- True => exact I
         | |- forall x : ?T, _ =>
             lazymatch T with Ctx => fail | _ => intro end
         end.

Lemma handle_async_keeps_sessions `{Crypto} r : KeepsSessions (handle_async r).
Proof.
  destruct r as [email password | email random now delivered
                | email code now | email password | user
                | provider user chatId message | user chatId | user];
    cbn [handle_async].
  - unfold post_register_async. keeps_sessions_steps; [session_kept|].
    intros c id. unfold bind, db_query, gets, insert_user. cbn [world].
    destruct (existsb _ _); session_kept.
  - unfold post_send_otp_async. keeps_sessions_steps; try session_kept.
    intros c id. destruct delivered; session_kept.
  - unfold post_verify_otp_async. cbn [KeepsSessions].
    split; [session_kept|]. intros [o|].
    + destruct (otp_expires_at o <? now); keeps_sessions_steps; session_kept.
    + keeps_sessions_steps. session_kept.
  - unfold post_login_async. cbn [KeepsSessions].
    split; [session_kept|]. intros [u|].
    + destruct (user_verified u =? 0); keeps_sessions_steps; try session_kept.
      intros c id. match goal with valid : bool |- _ => destruct valid end;
        session_kept.
    + keeps_sessions_steps. session_kept.
  - destruct user as [u|]; cbn [post_chat_async auth_async];
      keeps_sessions_steps; [|session_kept].
    intros c id Hid. unfold bind, db_query, db_run, gets, modify, json, on_db,
      on_res, insert_chat, chat_exists, set_chats in *.
    cbn. rewrite existsb_app, Hid.
    reflexivity.
  - destruct user as [u|]; cbn [post_chat_stream_async auth_async];
      [|keeps_sessions_steps; session_kept].
    keeps_sessions_steps.
    + intros c id Hid. unfold bind, setHeader, modify, db_insert_message,
        insert_message. cbn [world db on_res].
      destruct (chat_exists chatId (db (world c))); exact Hid.
    + session_kept.
    + intros c id. rewrite stream_segment. destruct (failure _); session_kept.
    + intros c id Hid. unfold bind, db_insert_message, insert_message, res_end,
        modify.
      destruct (chat_exists chatId (db (world c))); exact Hid.
  - destruct user; cbn [get_messages_async auth_async];
      keeps_sessions_steps; session_kept.
  - destruct user; cbn [get_chats_async auth_async];
      keeps_sessions_steps; session_kept.
Qed.

Lemma advance_keeps_sessions t w :
  KeepsSessions (pending t) ->
  KeepsSessions (pending (fst (advance t w))) /\
  (forall chatId, chat_exists chatId (db w) = true ->
                  chat_exists chatId (db (snd (advance t w))) = true).
Proof.
  unfold advance. destruct (pending t) as [|A segment k] eqn:Hp; intros Hks.
  - cbn. rewrite Hp. split; [exact I|]. auto.
  - destruct Hks as [Hseg Hk].
    specialize (Hseg (mkCtx w (response t))). cbn [world] in Hseg.
    destruct (segment (mkCtx w (response t))) as [a c|e c];
      cbn [final_state] in Hseg; cbn [fst snd pending].
    + split; [apply Hk | exact Hseg].
    + split; [exact I | exact Hseg].
Qed.

Lemma interleave_keeps_sessions s : forall pool w,
  Forall (fun t => KeepsSessions (pending t)) pool ->
  Forall (fun t => KeepsSessions (pending t)) (fst (interleave s pool w)) /\
  (forall chatId, chat_exists chatId (db w) = true ->
                  chat_exists chatId (db (snd (interleave s pool w))) = true).
Proof.
  induction s as [|i s IH]; intros pool w Hpool; [split; [exact Hpool|auto]|].
  cbn [interleave]. destruct (nth_error pool i) as [t|] eqn:Hi; [|now apply IH].
  assert (Ht : KeepsSessions (pending t)).
  { rewrite Forall_forall in Hpool. apply Hpool. now apply nth_error_In with i. }
  destruct (advance_keeps_sessions t w Ht) as [Hnext Hkept].
  destruct (IH (set_nth i (fst (advance t w)) pool) (snd (advance t w))
              (set_nth_Forall _ _ _ _ Hpool Hnext)) as [Hall Hlater].
  split; [exact Hall|]. intros chatId Hex. now apply Hlater, Hkept.
Qed.

Lemma in_flight_keeps_sessions `{Crypto} rs :
  Forall (fun t => KeepsSessions (pending t)) (in_flight rs).
Proof.
  unfold in_flight. apply Forall_forall. intros t Ht.
  apply in_map_iff in Ht. destruct Ht as [r [<- _]].
  apply handle_async_keeps_sessions.
Qed.

(** The next step of a task that the steps in [s] leave alone. *)
Lemma own_step_after s i t pool w :
  nth_error pool i = Some t ->
  ~ In i s ->
  interleave (s ++ [i]) pool w =
    (set_nth i (fst (advance t (snd (interleave s pool w))))
             (fst (interleave s pool w)),
     snd (advance t (snd (interleave s pool w)))).
Proof.
  intros Hi Hs. rewrite interleave_app. cbn [interleave].
  now rewrite (interleave_untouched i s pool w Hs), Hi.
Qed.

Lemma relay_third_step_completed provider chatId history r w fs :
  provider history = mkUpstream fs None ->
  advance (mkTask (relay_loaded provider chatId history) r None) w =
  (mkTask (relay_streamed chatId (joined fs))
          (mkResponse (status r) (headers r) (body r) (chunks r ++ fs) (ended r))
          None,
   mkWorld (db w) (outbox w) (upstream_log w ++ [history])).
Proof.
  intros Hup. unfold advance. cbn [pending response relay_loaded].
  rewrite stream_segment, Hup. reflexivity.
Qed.

Lemma relay_fourth_step chatId content r w :
  chat_exists chatId (db w) = true ->
  advance (mkTask (relay_streamed chatId content) r None) w =
  (mkTask Finished
          (mkResponse (status r) (headers r) (body r) (chunks r) true) None,
   mkWorld (set_messages (fun t => t ++ [mkMessage chatId "assistant" content])
                         (db w))
           (outbox w) (upstream_log w)).
Proof.
  intros Hex. unfold advance. cbn [pending response relay_streamed].
  unfold bind, db_insert_message, res_end, modify. cbn [world db].
  now rewrite (insert_message_ok _ _ _ _ Hex).
Qed.

Lemma own_step_from pre s i t pool w :
  nth_error (fst (interleave pre pool w)) i = Some t ->
  ~ In i s ->
  interleave (pre ++ s ++ [i]) pool w =
    (set_nth i (fst (advance t (snd (interleave (pre ++ s) pool w))))
             (fst (interleave (pre ++ s) pool w)),
     snd (advance t (snd (interleave (pre ++ s) pool w)))).
Proof.
  intros Hi Hs. rewrite (interleave_app pre (s ++ [i])).
  rewrite (own_step_after s i t _ _ Hi Hs).
  now rewrite (interleave_app pre s).
Qed.

Lemma own_step_result pre s i t pool w :
  nth_error (fst (interleave pre pool w)) i = Some t ->
  ~ In i s ->
  nth_error (fst (interleave (pre ++ s ++ [i]) pool w)) i =
    Some (fst (advance t (snd (interleave (pre ++ s) pool w)))).
Proof.
  intros Hi Hs. rewrite (own_step_from pre s i t pool w Hi Hs). cbn [fst].
  apply nth_set_nth_same with t.
  rewrite (interleave_app pre s). now rewrite interleave_untouched.
Qed.

(** X24. A chat turn among other requests, under any schedule of their
    awaits, on a session that exists when the turn starts and with an
    upstream that completes normally after yielding the fragments [fs]: the
    turn ends with status 200, the streaming headers, exactly the fragments
    [fs] written to its response in order and the response ended, and its
    last step appends to the store the assistant message whose content is
    the concatenation of those fragments.  What other requests do in
    between changes neither what is written nor what is committed. *)
Theorem relay_commits_under_interleaving `{Crypto}
    (rs : list Request) i before s1 s2 s3 w provider u chatId message fs :
  nth_error rs i = Some (ChatStream provider (Some u) chatId message) ->
  ~ In i before -> ~ In i s1 -> ~ In i s2 -> ~ In i s3 ->
  chat_exists chatId (db (snd (interleave before (in_flight rs) w))) = true ->
  provider (select_messages chatId
              (db (snd (interleave (before ++ i :: s1) (in_flight rs) w)))) =
    mkUpstream fs None ->
  nth_error
    (fst (interleave (before ++ i :: s1 ++ i :: s2 ++ i :: s3 ++ [i])
            (in_flight rs) w)) i =
    Some (mkTask Finished (mkResponse 200 stream_headers NoBody fs true) None) /\
  messages
    (db (snd (interleave (before ++ i :: s1 ++ i :: s2 ++ i :: s3 ++ [i])
                (in_flight rs) w))) =
    messages
      (db (snd (interleave (before ++ i :: s1 ++ i :: s2 ++ i :: s3)
                  (in_flight rs) w))) ++
    [mkMessage chatId "assistant" (joined fs)].
Proof.
  intros Hi Hbefore Hs1 Hs2 Hs3 Hex Hup.
  set (pool := in_flight rs) in *.
  set (pre1 := before ++ [] ++ [i]).
  set (pre2 := pre1 ++ s1 ++ [i]).
  set (pre3 := pre2 ++ s2 ++ [i]).
  assert (Hshape4 : before ++ i :: s1 ++ i :: s2 ++ i :: s3 ++ [i] =
                    pre3 ++ s3 ++ [i])
    by (unfold pre3, pre2, pre1; repeat rewrite <- app_assoc; reflexivity).
  assert (Hshape3 : before ++ i :: s1 ++ i :: s2 ++ i :: s3 = pre3 ++ s3)
    by (unfold pre3, pre2, pre1; repeat rewrite <- app_assoc; reflexivity).
  assert (Hshape1 : before ++ i :: s1 = pre1 ++ s1)
    by (unfold pre1; repeat rewrite <- app_assoc; reflexivity).
  assert (H0 : nth_error (fst (interleave [] pool w)) i =
               Some (spawn (post_chat_stream_async provider (Some u) chatId
                              message))).
  { cbn [interleave fst]. unfold pool, in_flight.
    now rewrite nth_error_map, Hi. }
  (* the INSERT of the user message *)
  pose proof (own_step_result [] before i _ pool w H0 Hbefore) as H1.
  cbn [app] in H1. rewrite (relay_first_step _ _ _ _ _ Hex) in H1.
  cbn [fst] in H1.
  change (before ++ [i]) with pre1 in H1.
  (* the SELECT of the history *)
  pose proof (own_step_result pre1 s1 i _ pool w H1 Hs1) as H2.
  rewrite relay_second_step in H2. cbn [fst] in H2.
  fold pre2 in H2.
  (* the upstream call *)
  pose proof (own_step_result pre2 s2 i _ pool w H2 Hs2) as H3.
  rewrite (relay_third_step_completed _ _ _ _ _ fs) in H3
    by (rewrite <- Hshape1; exact Hup).
  cbn [fst status headers body chunks ended app] in H3. fold pre3 in H3.
  (* the session is still there *)
  assert (Hstill : chat_exists chatId
                     (db (snd (interleave (pre3 ++ s3) pool w))) = true).
  { rewrite <- Hshape3.
    rewrite (interleave_app before (i :: s1 ++ i :: s2 ++ i :: s3)).
    destruct (interleave_keeps_sessions before pool w
                (in_flight_keeps_sessions rs)) as [Hall _].
    now apply (interleave_keeps_sessions _ _ _ Hall). }
  (* the INSERT of the reply *)
  rewrite Hshape4, Hshape3.
  rewrite (own_step_from pre3 s3 i _ pool w H3 Hs3).
  rewrite (relay_fourth_step _ _ _ _ Hstill). cbn [fst snd].
  split.
  - apply nth_set_nth_same with
      (mkTask (relay_streamed chatId (joined fs))
              (mkResponse 200 stream_headers NoBody fs false) None).
    rewrite (interleave_app pre3 s3). now rewrite interleave_untouched.
  - reflexivity.
Qed.

(** The turn of request 0 of [demo_requests], with the other turn and the
    issuance running between its steps. *)
Lemma relay_commits_interleaving_witness :
  nth_error
    (fst (interleave
            ([2%nat] ++ 0%nat :: [2%nat; 1%nat] ++ 0%nat :: [2%nat] ++
             0%nat :: [1%nat; 1%nat; 1%nat] ++ [0%nat])
            (@in_flight toy_crypto demo_requests) demo_world)) 0 =
    Some (mkTask Finished
            (mkResponse 200 stream_headers NoBody ["I'm "; "fine, thanks"] true)
            None) /\
  messages
    (db (snd (interleave
                ([2%nat] ++ 0%nat :: [2%nat; 1%nat] ++ 0%nat :: [2%nat] ++
                 0%nat :: [1%nat; 1%nat; 1%nat] ++ [0%nat])
                (@in_flight toy_crypto demo_requests) demo_world))) =
    messages
      (db (snd (interleave
                  ([2%nat] ++ 0%nat :: [2%nat; 1%nat] ++ 0%nat :: [2%nat] ++
                   0%nat :: [1%nat; 1%nat; 1%nat])
                  (@in_flight toy_crypto demo_requests) demo_world))) ++
    [mkMessage 1 "assistant" (joined ["I'm "; "fine, thanks"])].
Proof.
  apply (@relay_commits_under_interleaving toy_crypto demo_requests 0%nat
           [2%nat] [2%nat; 1%nat] [2%nat] [1%nat; 1%nat; 1%nat] demo_world
           demo_provider alice 1 "from A" ["I'm "; "fine, thanks"]).
  - reflexivity.
  - intros [E|[]]; discriminate.
  - intros [E|[E|[]]]; discriminate.
  - intros [E|[]]; discriminate.
  - intros [E|[E|[E|[]]]]; discriminate.
  - reflexivity.
  - reflexivity.
Defined.

(** The store that schedule leaves: both turns and both replies, in the
    order their INSERTs ran. *)
Example racing_turns_store :
  messages
    (db (snd (interleave [2; 0; 2; 1; 0; 2; 0; 1; 1; 1; 0]%nat
                (@in_flight toy_crypto demo_requests) demo_world))) =
  [mkMessage 1 "user" "hi"; mkMessage 1 "user" "from A";
   mkMessage 1 "user" "from B"; mkMessage 1 "assistant" "I'm fine, thanks";
   mkMessage 1 "assistant" "I'm fine, thanks"].
Proof. reflexivity. Qed.
